(** * DiscordWhispers: the Lain, Syntax and Satoshi bots

    A shallow embedding of the three bot scripts
    ([text_models/lain.py], [code_models/syntax.py],
    [image_models/satoshi.py]) and the properties of their
    response-delivery and conversation-context pipeline.

    Python values are modelled as follows.
    - [str] is a list of characters.  A character is a code point
      below 256 ([ascii], read as Latin-1); [lower] and [strip] act on
      these as Python's do.
    - The module-level mutable objects ([global_conversation_history],
      [conversation_history]) live in an explicit bot state that every
      coroutine threads through; [print], [channel.send],
      [asyncio.sleep], the typing indicator and the model calls are
      recorded, in program order, in the state's trace.
    - Whatever the outside world answers (the model API, Discord's
      reply to a send, the command parser of discord.py) is read from an
      environment record of oracles.
    - A coroutine is a function from a state to a result (a value or a
      raised exception) and a new state. *)

From Stdlib Require Import ZArith Lia Ascii String List DecimalString.
From stdpp Require Import base list gmap.

Local Open Scope nat_scope.

(** ** Python strings and sequences *)

Module Py.

(** A Python [str]. *)
Abbreviation str := (list ascii) (only parsing).

(** A string literal of the source. *)
Definition lit (s : string) : str := list_ascii_of_string s.

(** [str(n)] / [f"{n}"] for a non-negative [int]. *)
Definition str_of_N (n : N) : str :=
  lit (NilZero.string_of_uint (N.to_uint n)).

(** [s.lower()]: the upper-case letters below 256 are A-Z and the
    accented capitals 0xC0-0xDE (0xD7, the multiplication sign, is not a
    letter); each has its lower-case form 32 places up.  (Beyond this
    range Python's [lower] may turn one character into two; such texts
    are outside the model.) *)
Definition isupper (c : ascii) : bool :=
  let n := nat_of_ascii c in
  ((65 <=? n) && (n <=? 90))
  || ((192 <=? n) && (n <=? 222) && negb (n =? 215)).

Definition lower_char (c : ascii) : ascii :=
  if isupper c then ascii_of_nat (nat_of_ascii c + 32) else c.

Definition lower (s : str) : str := map lower_char s.

(** The characters [str.strip()] removes: tab, line feed, vertical
    tab, form feed, carriage return, the four separators 0x1c-0x1f, the
    space, next-line (0x85) and the no-break space (0xa0). *)
Definition isspace (c : ascii) : bool :=
  let n := nat_of_ascii c in
  ((9 <=? n) && (n <=? 13)) || ((28 <=? n) && (n <=? 31)) || (n =? 32)
  || (n =? 133) || (n =? 160).

Fixpoint lstrip (s : str) : str :=
  match s with
  | c :: t => if isspace c then lstrip t else s
  | [] => []
  end.

Definition rstrip (s : str) : str := rev (lstrip (rev s)).

(** [s.strip()] *)
Definition strip (s : str) : str := rstrip (lstrip s).

Definition eqb_char (a b : ascii) : bool := Ascii.eqb a b.

(** [s.startswith(p)] *)
Fixpoint startswith (p s : str) : bool :=
  match p, s with
  | [], _ => true
  | _ :: _, [] => false
  | a :: p', b :: s' => eqb_char a b && startswith p' s'
  end.

(** [needle in hay] for strings: substring test. *)
Fixpoint contains (needle hay : str) : bool :=
  startswith needle hay ||
  match hay with
  | [] => false
  | _ :: t => contains needle t
  end.

(** The optional [count] argument of [str.replace]: [None] replaces
    every occurrence. *)
Definition budget_left (count : option nat) : bool :=
  match count with Some 0 => false | _ => true end.

Definition budget_dec (count : option nat) : option nat :=
  match count with Some n => Some (pred n) | None => None end.

(** Scan for a non-empty [old], left to right, without overlap.
    [skip] counts the characters of a match still to be dropped. *)
Fixpoint replace_scan (old new : str) (count : option nat) (skip : nat)
    (s : str) : str :=
  match s with
  | [] => []
  | c :: t =>
      match skip with
      | S k => replace_scan old new count k t
      | O =>
          if budget_left count && startswith old s
          then new ++ replace_scan old new (budget_dec count)
                        (pred (length old)) t
          else c :: replace_scan old new count 0 t
      end
  end.

(** With an empty [old], Python inserts [new] before every character
    and at the end. *)
Fixpoint replace_empty (new : str) (count : option nat) (s : str) : str :=
  if budget_left count then
    match s with
    | [] => new
    | c :: t => new ++ c :: replace_empty new (budget_dec count) t
    end
  else s.

(** [s.replace(old, new)] and [s.replace(old, new, count)] *)
Definition replace (s old new : str) (count : option nat) : str :=
  match old with
  | [] => replace_empty new count s
  | _ :: _ => replace_scan old new count 0 s
  end.

(** [s[i:j]] for [0 <= i <= j]; the slice is cut at the end of [s]. *)
Definition slice {A} (s : list A) (i j : nat) : list A :=
  firstn (j - i) (skipn i s).

(** [range(start, stop, step)] for a positive [step]: count up from
    [start] while below [stop].  The loop runs at most [stop - start]
    times. *)
Fixpoint range_loop (fuel i stop step : nat) : list nat :=
  match fuel with
  | O => []
  | S fuel' =>
      if i <? stop then i :: range_loop fuel' (i + step) stop step else []
  end.

Definition range (start stop step : nat) : list nat :=
  range_loop (stop - start) start stop step.

(** [enumerate(l)] *)
Definition enumerate {A} (l : list A) : list (nat * A) :=
  combine (seq 0 (length l)) l.

End Py.

Import Py.

(** ** Splitting a response into messages *)

(** Discord's message size limit, as the three scripts write it. *)
Definition CHUNK : nat := 2000.

(** [[response[i:i+2000] for i in range(0, len(response), 2000)]] *)
Definition chunks_of {A} (size : nat) (response : list A) : list (list A) :=
  map (fun i => slice response i (i + size))
      (range 0 (length response) size).

Definition chunks (response : str) : list str := chunks_of CHUNK response.

(** ** Exceptions, effects and the bot state *)

(** The exception classes the scripts tell apart.  All of them derive
    from [Exception]; [HTTPException] is discord.py's, raised by a
    rejected [send]; [OtherError] stands for every other class. *)
Inductive exn_class := HTTPException | KeyError | AttributeError | OtherError.

(** An exception with the text of [str(e)]. *)
Record exn := Exn { exn_cls : exn_class; exn_str : str }.

Inductive outcome (A : Type) :=
| Return (a : A)
| Raise (e : exn).
Arguments Return {A} a.
Arguments Raise {A} e.

Module Ollama.
(** One element of [messages]: [{'role': ..., 'content': ...}]. *)
Record chat_message := ChatMessage { role : str; content : str }.

(** What [ollama.chat] returned, as far as
    [response['message']['content']] inspects it. *)
Inductive chat_response :=
| RespContent (text : str)   (* {'message': {'content': text}} *)
| RespNoContent              (* {'message': {}} *)
| RespNoMessage.             (* {} *)
End Ollama.

Module Discord.
(** The fields of a [discord.Message] the handlers read.  Users and
    channels are identified by their ids. *)
Record message := Message {
  author : N;
  author_name : str;
  content : str;
  mentions : list N;
  channel_id : N;
  attachments : list str   (* the url of each attachment *)
}.
End Discord.

Module Requests.
(** The body of the POST to [/api/generate]. *)
Record generate_payload := GeneratePayload {
  model : str;
  prompt : str;
  images : list str;
  stream : bool
}.

(** [response.json()]: it raises on a body that is not JSON;
    otherwise the value is a dict, with or without a ['response']
    key, or some other JSON value. *)
Inductive json_body :=
| JsonDict (response : option str)
| JsonOther (type_name : str).

Record response := Response {
  status_code : N;
  text : str;
  json : outcome json_body
}.
End Requests.

Inductive event :=
| Print (line : str)
| Send (channel : N) (text : str) (result : outcome unit)
| Sleep (seconds : nat)
| Typing (channel : N) (on : bool)
| OllamaChat (model : str) (messages : list Ollama.chat_message)
| HttpGet (url : str)
| HttpPost (url : str) (data : Requests.generate_payload).

(** A decoded image, as PIL holds it. *)
Definition image := list ascii.

(** The answers of the outside world.  The [nat] argument of an oracle
    is the number of earlier calls of that kind in the trace. *)
Record env := Env {
  (** [bot.user.id] *)
  bot_user : N;
  (** the outcome of [channel.send(text)] *)
  send_outcome : nat -> N -> str -> outcome unit;
  (** the outcome of [ollama.chat(model=..., messages=...)] *)
  chat_outcome : nat -> str -> list Ollama.chat_message ->
                 outcome Ollama.chat_response;
  (** discord.py's command parser: the [prompt] argument when the
      message invokes the bot's one command *)
  invoked_command : Discord.message -> option str;
  (** [Image.open(BytesIO(requests.get(url).content)).convert("RGB")] *)
  get_image : str -> outcome image;
  (** [image.save(buffered, format="JPEG")] and the base64 text of it *)
  jpeg_base64 : image -> outcome str;
  (** the outcome of [requests.post(url, ..., data=json.dumps(payload))] *)
  post_outcome : nat -> str -> Requests.generate_payload ->
                 outcome Requests.response
}.

(** The state of a running bot: its conversation store (of type [H])
    and everything it did so far, oldest first. *)
Record bot (H : Type) := Bot { history : H; trace : list event }.
Arguments Bot {H} history trace.
Arguments history {H} b.
Arguments trace {H} b.

Definition is_send (e : event) : bool :=
  match e with Send _ _ _ => true | _ => false end.
Definition is_sleep (e : event) : bool :=
  match e with Sleep _ => true | _ => false end.
Definition is_chat (e : event) : bool :=
  match e with OllamaChat _ _ => true | _ => false end.
Definition is_post (e : event) : bool :=
  match e with HttpPost _ _ => true | _ => false end.

Definition count (p : event -> bool) (tr : list event) : nat :=
  length (List.filter p tr).

(** A coroutine over a bot with store [H]. *)
Definition M (H A : Type) : Type := bot H -> outcome A * bot H.

Definition ret {H A} (a : A) : M H A := fun b => (Return a, b).

Definition bind {H A B} (m : M H A) (k : A -> M H B) : M H B :=
  fun b =>
    match m b with
    | (Return a, b') => k a b'
    | (Raise e, b') => (Raise e, b')
    end.

Definition raise {H A} (e : exn) : M H A := fun b => (Raise e, b).

Definition lift {H A} (o : outcome A) : M H A := fun b => (o, b).

Declare Scope py_scope.
Delimit Scope py_scope with py.
Notation "x <- m ;; k" := (bind m (fun x => k))
  (at level 100, m at next level, k at level 200, right associativity)
  : py_scope.
Notation "m ;; k" := (bind m (fun _ => k))
  (at level 100, k at level 200, right associativity) : py_scope.
Local Open Scope py_scope.

Definition emit {H} (e : event) : M H unit :=
  fun b => (Return tt, Bot (history b) (trace b ++ [e])).

Definition get_history {H} : M H H := fun b => (Return (history b), b).

Definition update_history {H} (f : H -> H) : M H unit :=
  fun b => (Return tt, Bot (f (history b)) (trace b)).

Definition get_trace {H} : M H (list event) := fun b => (Return (trace b), b).

(** [try: body / except <classes accepted by handler> as e: handler e].
    An exception the handler does not accept goes on to the caller. *)
Definition try_except {H A} (body : M H A) (handler : exn -> option (M H A))
    : M H A :=
  fun b =>
    match body b with
    | (Return a, b') => (Return a, b')
    | (Raise e, b') =>
        match handler e with
        | Some h => h b'
        | None => (Raise e, b')
        end
    end.

(** [except Exception as e:] *)
Definition except_Exception {H A} (h : exn -> M H A) : exn -> option (M H A) :=
  fun e => Some (h e).

(** [except discord.errors.HTTPException as e:] *)
Definition except_HTTPException {H A} (h : exn -> M H A)
    : exn -> option (M H A) :=
  fun e => match exn_cls e with HTTPException => Some (h e) | _ => None end.

(** [print(line)] *)
Definition print {H} (line : str) : M H unit := emit (Print line).

(** [await asyncio.sleep(seconds)] *)
Definition sleep {H} (seconds : nat) : M H unit := emit (Sleep seconds).

(** [async with channel.typing(): body]; the indicator is released
    however the body ends. *)
Definition with_typing {H A} (channel : N) (body : M H A) : M H A :=
  fun b =>
    let '(r, b') := (emit (Typing channel true) ;; body) b in
    (r, Bot (history b') (trace b' ++ [Typing channel false])).

Inductive loop_ctl := Continue | Break.

(** [for x in items: body x], where the body may [break]. *)
Fixpoint for_each {H X} (items : list X) (body : X -> M H loop_ctl)
    : M H unit :=
  match items with
  | [] => ret tt
  | x :: rest =>
      c <- body x ;;
      match c with
      | Continue => for_each rest body
      | Break => ret tt
      end
  end.

Section Runtime.
Context {H : Type} (E : env).

(** [await channel.send(text)] *)
Definition send (channel : N) (text : str) : M H unit :=
  tr <- get_trace ;;
  let r := send_outcome E (count is_send tr) channel text in
  emit (Send channel text r) ;;
  lift r.

(** The body of the delivery loop:
    [try: send; if idx < len(chunks) - 1: print; sleep]
    [except HTTPException as e: print; break]. *)
Definition deliver_step (channel : N) (n : nat) (item : nat * str)
    : M H loop_ctl :=
  let '(idx, chunk) := item in
  try_except
    (send channel chunk ;;
     (if (Z.of_nat idx <? Z.of_nat n - 1)%Z
      then print (lit "Sleeping for 15 seconds...") ;; sleep 15
      else ret tt) ;;
     ret Continue)
    (except_HTTPException (fun e =>
       print (lit "Failed to send message: " ++ exn_str e) ;;
       ret Break)).

(** Split the response into chunks of 2000 characters and send them. *)
Definition deliver (channel : N) (response : str) : M H unit :=
  let chunks := chunks response in
  for_each (enumerate chunks) (deliver_step channel (length chunks)).

(** [await bot.process_commands(message)]: run the bot's command when
    the message invokes it.  discord.py reports an exception of the
    command to its error handler; it does not reach [on_message].
    Only the command the script registers is modelled: the help command
    discord.py adds by default, which answers with its help text, is
    not. *)
Definition process_commands (chat : Discord.message -> str -> M H unit)
    (message : Discord.message) : M H unit :=
  match invoked_command E message with
  | Some prompt =>
      try_except (chat message prompt) (except_Exception (fun _ => ret tt))
  | None => ret tt
  end.

(** The two spellings of a mention of the bot, [<@!id>] and [<@id>],
    removed from the text. *)
Definition without_mentions (content : str) : str :=
  let id := str_of_N (bot_user E) in
  replace
    (replace content (lit "<@!" ++ id ++ lit ">") (lit "") None)
    (lit "<@" ++ id ++ lit ">") (lit "") None.

(** [bot.user in message.mentions or wake in message.content.lower()] *)
Definition addressed (wake : str) (message : Discord.message) : bool :=
  existsb (N.eqb (bot_user E)) (Discord.mentions message)
  || contains wake (lower (Discord.content message)).

(** [await asyncio.to_thread(ollama.chat, model=..., messages=...,
    stream=False)] *)
Definition ollama_chat (model : str) (messages : list Ollama.chat_message)
    : M H Ollama.chat_response :=
  tr <- get_trace ;;
  emit (OllamaChat model messages) ;;
  lift (chat_outcome E (count is_chat tr) model messages).

End Runtime.

(** [response['message']['content']]; a missing key raises [KeyError],
    whose text is the quoted key. *)
Definition message_content (response : Ollama.chat_response) : outcome str :=
  match response with
  | Ollama.RespContent text => Return text
  | Ollama.RespNoContent => Raise (Exn KeyError (lit "'content'"))
  | Ollama.RespNoMessage => Raise (Exn KeyError (lit "'message'"))
  end.

(** [not s] for a string. *)
Definition is_empty (s : str) : bool :=
  match s with [] => true | _ :: _ => false end.

(** ** Lain: the text bot with one global history *)

Module Lain.

(** An entry of [global_conversation_history]:
    [{'user': prompt, 'lain': lain_response}]. *)
Record exchange := Exchange { user : str; lain : str }.

Definition LAIN_PROMPT : str := lit "Your name is Lain.
You are a sentient being existing within a digital realm.
Please keep your responses concise, no more than 2000 characters.
".

Definition MODEL : str := lit "dolphin-llama3:8b".

Definition FALLBACK : str := lit "I'm sorry, but I couldn't process that.".

Definition WAKE : str := lit "hello lain".

Definition DEFAULT_PROMPT : str := lit "Hello".

(** The loop that replays the history into [messages]. *)
Definition replay (messages : list Ollama.chat_message)
    (history : list exchange) : list Ollama.chat_message :=
  fold_left
    (fun messages entry =>
       (messages ++ [Ollama.ChatMessage (lit "user") (user entry)])
       ++ [Ollama.ChatMessage (lit "assistant") (lain entry)])
    history messages.

Section Bot.
Context (E : env).

Definition chat_with_lain (prompt : str) : M (list exchange) str :=
  try_except
    (global_conversation_history <- get_history ;;
     let messages :=
       replay [Ollama.ChatMessage (lit "system") LAIN_PROMPT]
              global_conversation_history in
     let messages := messages ++ [Ollama.ChatMessage (lit "user") prompt] in
     response <- ollama_chat E MODEL messages ;;
     lain_response <- lift (message_content response) ;;
     update_history (fun h => h ++ [Exchange prompt lain_response]) ;;
     ret lain_response)
    (except_Exception (fun e =>
       print (lit "Error in chat_with_lain: " ++ exn_str e) ;;
       ret FALLBACK)).

(** The body shared by [on_message] and the [!lain] command; [tag] is
    the text that tells their log lines apart. *)
Definition respond (tag : str) (channel : N) (prompt : str)
    : M (list exchange) unit :=
  with_typing channel
    (response <- chat_with_lain prompt ;;
     print (lit "Full response from Lain" ++ tag ++ lit ": " ++ response) ;;
     print (lit "Response length: "
            ++ str_of_N (N.of_nat (length response)) ++ lit " characters") ;;
     deliver E channel response).

(** [@lain.command(name="lain") async def chat(ctx, *, prompt)] *)
Definition chat (ctx : Discord.message) (prompt : str)
    : M (list exchange) unit :=
  respond (lit " (command)") (Discord.channel_id ctx) prompt.

(** The prompt [on_message] extracts from an addressed message. *)
Definition prompt_of (message : Discord.message) : str :=
  let prompt := without_mentions E (Discord.content message) in
  let prompt := strip (replace prompt WAKE (lit "") (Some 1)) in
  if is_empty prompt then DEFAULT_PROMPT else prompt.

Definition on_message (message : Discord.message) : M (list exchange) unit :=
  if N.eqb (Discord.author message) (bot_user E) then ret tt
  else
    process_commands E chat message ;;
    if addressed E WAKE message
    then respond (lit "") (Discord.channel_id message) (prompt_of message)
    else ret tt.

End Bot.
End Lain.

(** ** Syntax: the coding bot with one history per channel *)

Module Syntax.

(** The two shapes of a history entry: [{'user': name, 'prompt': prompt}]
    and [{'syntax': response}]. *)
Inductive entry :=
| UserPrompt (user prompt : str)
| SyntaxReply (syntax : str).

Definition SYNTAX_PROMPT : str := lit "Your name is Syntax, but Syn for short.
You are inside of a discord text channel that helps with code generation, code improvement, debugging, and explanations.
Use Discord markup syntax to ensure information gets across correctly.
".

Definition MODEL : str := lit "deepseek-coder-v2".

Definition FALLBACK : str := lit "I'm sorry, but I couldn't process that.".

Definition WAKE : str := lit "hello syntax".

Definition DEFAULT_PROMPT : str := lit "Hello".

(** [conversation_history[key].append(x)] on the [defaultdict(list)]: a
    missing key is first bound to the empty list. *)
Definition append_entry (key : N) (x : entry) (d : gmap N (list entry))
    : gmap N (list entry) :=
  <[key := default [] (d !! key) ++ [x]]> d.

Section Bot.
Context (E : env).

Definition chat_with_syntax (prompt : str) : M (gmap N (list entry)) str :=
  try_except
    (response <- ollama_chat E MODEL
                   [Ollama.ChatMessage (lit "system") SYNTAX_PROMPT;
                    Ollama.ChatMessage (lit "user") prompt] ;;
     lift (message_content response))
    (except_Exception (fun e =>
       print (lit "Error in chat_with_syntax: " ++ exn_str e) ;;
       ret FALLBACK)).

(** [@syntax.command(name="syntax") async def chat(ctx, *, prompt)] *)
Definition chat (ctx : Discord.message) (prompt : str)
    : M (gmap N (list entry)) unit :=
  with_typing (Discord.channel_id ctx)
    (response <- chat_with_syntax prompt ;;
     print (lit "Full response from Syntax (command): " ++ response) ;;
     update_history
       (append_entry (Discord.channel_id ctx)
          (UserPrompt (Discord.author_name ctx) prompt)) ;;
     update_history
       (append_entry (Discord.channel_id ctx) (SyntaxReply response)) ;;
     deliver E (Discord.channel_id ctx) response).

(** The prompt [on_message] extracts from an addressed message. *)
Definition prompt_of (message : Discord.message) : str :=
  let prompt := without_mentions E (Discord.content message) in
  let prompt := strip (replace prompt WAKE (lit "") (Some 1)) in
  if is_empty prompt then DEFAULT_PROMPT else prompt.

(** The addressed branch of [on_message]. *)
Definition turn (message : Discord.message) : M (gmap N (list entry)) unit :=
  let prompt := prompt_of message in
  update_history
    (append_entry (Discord.channel_id message)
       (UserPrompt (Discord.author_name message) prompt)) ;;
  with_typing (Discord.channel_id message)
    (response <- chat_with_syntax prompt ;;
     print (lit "Full response from Syntax: " ++ response) ;;
     update_history
       (append_entry (Discord.channel_id message) (SyntaxReply response)) ;;
     deliver E (Discord.channel_id message) response).

Definition on_message (message : Discord.message)
    : M (gmap N (list entry)) unit :=
  if N.eqb (Discord.author message) (bot_user E) then ret tt
  else
    (if addressed E WAKE message then turn message else ret tt) ;;
    process_commands E chat message.

End Bot.
End Syntax.

(** ** Satoshi: the image bot *)

Module Satoshi.

Definition MODEL : str := lit "llava-llama3:latest".

Definition GENERATE_URL : str := lit "http://localhost:11434/api/generate".

Definition FALLBACK : str := lit "I'm sorry, I couldn't process the image.".

Definition NOT_UNDERSTOOD : str := lit "I couldn't understand the image.".

Definition WAKE : str := lit "hello satoshi".

Definition DEFAULT_PROMPT : str := lit "What is in the image?".

Definition ATTACH_PLEASE : str :=
  lit "Please attach an image for me to analyze.".

Definition FETCH_FAILED : str := lit "I couldn't fetch the image.".

(** [s.trim()]: Python's [str] has [strip], [lstrip] and [rstrip] but no
    attribute [trim], so looking the method up raises. *)
Definition str_trim (s : str) : outcome str :=
  Raise (Exn AttributeError (lit "'str' object has no attribute 'trim'")).

(** [result.get('response', default)]; a JSON value that is not a dict
    has no [get]. *)
Definition get_response (result : Requests.json_body) (default : str)
    : outcome str :=
  match result with
  | Requests.JsonDict (Some r) => Return r
  | Requests.JsonDict None => Return default
  | Requests.JsonOther ty =>
      Raise (Exn AttributeError
               (lit "'" ++ ty ++ lit "' object has no attribute 'get'"))
  end.

Section Bot.
Context (E : env).

(** [requests.post(url, headers=..., data=json.dumps(payload))] *)
Definition requests_post (url : str) (payload : Requests.generate_payload)
    : M unit Requests.response :=
  tr <- get_trace ;;
  emit (HttpPost url payload) ;;
  lift (post_outcome E (count is_post tr) url payload).

Definition ask_about_image_via_generate (image : image) (question : str)
    : M unit str :=
  try_except
    (img_str <- lift (jpeg_base64 E image) ;;
     let payload :=
       Requests.GeneratePayload MODEL question [img_str] false in
     response <- requests_post GENERATE_URL payload ;;
     if N.eqb (Requests.status_code response) 200
     then
       result <- lift (Requests.json response) ;;
       lift (get_response result NOT_UNDERSTOOD)
     else
       ret (lit "Error: " ++ str_of_N (Requests.status_code response)
            ++ lit " - " ++ Requests.text response))
    (except_Exception (fun e =>
       print (lit "Error in ask_about_image_via_generate: " ++ exn_str e) ;;
       ret FALLBACK)).

(** It returns the image, or [None] when anything went wrong. *)
Definition fetch_image_from_url (url : str) : M unit (option image) :=
  try_except
    (emit (HttpGet url) ;;
     img <- lift (get_image E url) ;;
     ret (Some img))
    (except_Exception (fun e =>
       print (lit "Error fetching image: " ++ exn_str e) ;;
       ret None)).

(** [@satoshi.command(name="satoshi") async def chat(ctx, *, prompt)] *)
Definition chat (ctx : Discord.message) (prompt : str) : M unit unit :=
  send E (Discord.channel_id ctx) ATTACH_PLEASE.

(** The addressed branch of [on_message]. *)
Definition turn (message : Discord.message) : M unit unit :=
  let channel := Discord.channel_id message in
  let prompt := without_mentions E (Discord.content message) in
  prompt <- lift (str_trim (replace prompt WAKE (lit "") (Some 1))) ;;
  let prompt := if is_empty prompt then DEFAULT_PROMPT else prompt in
  match Discord.attachments message with
  | image_url :: _ =>
      image <- fetch_image_from_url image_url ;;
      match image with
      | Some image =>
          with_typing channel
            (print (lit "Processing image with prompt: " ++ prompt) ;;
             response <- ask_about_image_via_generate image prompt ;;
             send E channel response)
      | None => send E channel FETCH_FAILED
      end
  | [] => send E channel ATTACH_PLEASE
  end.

Definition on_message (message : Discord.message) : M unit unit :=
  if N.eqb (Discord.author message) (bot_user E) then ret tt
  else
    process_commands E chat message ;;
    if addressed E WAKE message then turn message else ret tt.

End Bot.
End Satoshi.

(** * The vocabulary of the properties *)

(** [frames P m]: whatever the outcome, [m] takes the store to one that
    [P] relates to the store it started from. *)
Definition frames {H A} (P : H -> H -> Prop) (m : M H A) : Prop :=
  forall b, P (history b) (history (snd (m b))).

(** The pause the loop takes after a chunk that is not the last. *)
Definition pause : list event :=
  [Print (lit "Sleeping for 15 seconds..."); Sleep 15].

(** What the specification asks of a delivery in which every send
    succeeds: each chunk is sent, in order, with a pause after each but
    the last. *)
Fixpoint paced (channel : N) (chunks : list str) : list event :=
  match chunks with
  | [] => []
  | [chunk] => [Send channel chunk (Return tt)]
  | chunk :: rest => Send channel chunk (Return tt) :: pause ++ paced channel rest
  end.

(** Chunks that went out and were each followed by a pause. *)
Definition sent_and_paused (channel : N) (chunks : list str) : list event :=
  flat_map (fun chunk => Send channel chunk (Return tt) :: pause) chunks.

(** The environment in which Discord accepts every message, the model
    answers [reply], no message is a command and no image can be had. *)
Definition quiet_env (reply : str) : env :=
  {| bot_user := 42;
     send_outcome := fun _ _ _ => Return tt;
     chat_outcome := fun _ _ _ => Return (Ollama.RespContent reply);
     invoked_command := fun _ => None;
     get_image := fun _ => Raise (Exn OtherError (lit "cannot identify image file"));
     jpeg_base64 := fun _ => Raise (Exn OtherError (lit "cannot write mode"));
     post_outcome := fun _ _ _ => Raise (Exn OtherError (lit "Connection refused")) |}.

(** Discord's answer to a message it does not accept. *)
Definition bad_request : exn := Exn HTTPException (lit "400 Bad Request").

(** The same, but Discord rejects the send number [k] (counting from 0). *)
Definition rejecting_env (k : nat) (reply : str) : env :=
  {| bot_user := 42;
     send_outcome := fun i _ _ => if i =? k then Raise bad_request else Return tt;
     chat_outcome := chat_outcome (quiet_env reply);
     invoked_command := fun _ => None;
     get_image := get_image (quiet_env reply);
     jpeg_base64 := jpeg_base64 (quiet_env reply);
     post_outcome := post_outcome (quiet_env reply) |}.

(** A response of 4001 characters: three chunks. *)
Definition long_response : str := repeat "a"%char 4001.

(** Its first and second chunk. *)
Definition full_chunk : str := repeat "a"%char 2000.

(** The text of a model call number [i]: what the API answered, with
    [response['message']['content']] taken from it, or the exception
    either of the two raised. *)
Definition call_result (E : env) (i : nat) (model : str)
    (messages : list Ollama.chat_message) : outcome str :=
  match chat_outcome E i model messages with
  | Return response => message_content response
  | Raise e => Raise e
  end.

(** The message sequence the specification describes: the system message, a
    user and an assistant message per recorded exchange, the prompt. *)
Definition context_messages (history : list Lain.exchange) (prompt : str)
    : list Ollama.chat_message :=
  Ollama.ChatMessage (lit "system") Lain.LAIN_PROMPT
  :: flat_map (fun entry =>
                 [Ollama.ChatMessage (lit "user") (Lain.user entry);
                  Ollama.ChatMessage (lit "assistant") (Lain.lain entry)])
              history
  ++ [Ollama.ChatMessage (lit "user") prompt].

(** A series of calls of the global-context client, one per prompt. *)
Fixpoint lain_calls (E : env) (prompts : list str)
    : M (list Lain.exchange) (list str) :=
  match prompts with
  | [] => ret []
  | p :: rest =>
      r <- Lain.chat_with_lain E p ;;
      rs <- lain_calls E rest ;;
      ret (r :: rs)
  end.

(** The reply the per-channel bot works with in a turn started in
    state [b]: the model's text, or the fallback when the call failed. *)
Definition syntax_reply (E : env) (b : bot (gmap N (list Syntax.entry)))
    (prompt : str) : str :=
  match call_result E (count is_chat (trace b)) Syntax.MODEL
          [Ollama.ChatMessage (lit "system") Syntax.SYNTAX_PROMPT;
           Ollama.ChatMessage (lit "user") prompt] with
  | Return text => text
  | Raise _ => Syntax.FALLBACK
  end.

(** Two stores that agree away from the key [c]. *)
Definition same_elsewhere (c : N) (h h' : gmap N (list Syntax.entry)) : Prop :=
  forall c', c' <> c -> h' !! c' = h !! c'.

(** ... and in which the sequence under [c] only grew. *)
Definition grew_at (c : N) (h h' : gmap N (list Syntax.entry)) : Prop :=
  same_elsewhere c h h'
  /\ exists more, default [] (h' !! c) = default [] (h !! c) ++ more.

(** The environment in which the model API cannot be reached. *)
Definition offline_env : env :=
  {| bot_user := 42;
     send_outcome := fun _ _ _ => Return tt;
     chat_outcome := fun _ _ _ => Raise (Exn OtherError (lit "Connection refused"));
     invoked_command := fun _ => None;
     get_image := fun _ => Return (lit "pixels");
     jpeg_base64 := fun _ => Return (lit "/9j/4AAQ");
     post_outcome := fun _ _ _ => Raise (Exn OtherError (lit "Connection refused")) |}.

(** A bot of the Syntax kind that has a history in channel 9 only. *)
Definition busy_bot : bot (gmap N (list Syntax.entry)) :=
  Bot {[ 9%N := [Syntax.SyntaxReply (lit "earlier")] ]} [].

(** "hello syntax", written by user 7 (bob) in channel 5. *)
Definition hello_syntax : Discord.message :=
  {| Discord.author := 7; Discord.author_name := lit "bob";
     Discord.content := lit "hello syntax"; Discord.mentions := [];
     Discord.channel_id := 5; Discord.attachments := [] |}.

(** The request of the image client for an encoded image. *)
Definition generate_payload (img_str question : str) : Requests.generate_payload :=
  Requests.GeneratePayload Satoshi.MODEL question [img_str] false.

(** The line the image client prints for an exception. *)
Definition image_error_line (e : exn) : event :=
  Print (lit "Error in ask_about_image_via_generate: " ++ exn_str e).

(** The ways in which the body of the image client's [try] raises in
    its POST number [i]: the image cannot be encoded, the request
    fails, the body of a 200 answer is not JSON, or it is JSON but not a
    dict. *)
Inductive image_call_raises (E : env) (i : nat) (image : image) (question : str)
    : exn -> Prop :=
| raises_encoding e :
    jpeg_base64 E image = Raise e ->
    image_call_raises E i image question e
| raises_transport img_str e :
    jpeg_base64 E image = Return img_str ->
    post_outcome E i Satoshi.GENERATE_URL (generate_payload img_str question)
    = Raise e ->
    image_call_raises E i image question e
| raises_decoding img_str response e :
    jpeg_base64 E image = Return img_str ->
    post_outcome E i Satoshi.GENERATE_URL (generate_payload img_str question)
    = Return response ->
    Requests.status_code response = 200%N ->
    Requests.json response = Raise e ->
    image_call_raises E i image question e
| raises_not_a_dict img_str response ty :
    jpeg_base64 E image = Return img_str ->
    post_outcome E i Satoshi.GENERATE_URL (generate_payload img_str question)
    = Return response ->
    Requests.status_code response = 200%N ->
    Requests.json response = Return (Requests.JsonOther ty) ->
    image_call_raises E i image question
      (Exn AttributeError (lit "'" ++ ty ++ lit "' object has no attribute 'get'")).

(** The image API answers 500. *)
Definition server_error_env : env :=
  {| bot_user := 42;
     send_outcome := fun _ _ _ => Return tt;
     chat_outcome := fun _ _ _ => Raise (Exn OtherError (lit "Connection refused"));
     invoked_command := fun _ => None;
     get_image := fun _ => Return (lit "pixels");
     jpeg_base64 := fun _ => Return (lit "/9j/4AAQ");
     post_outcome := fun _ _ _ =>
       Return (Requests.Response 500 (lit "Internal Server Error")
                 (Raise (Exn OtherError (lit "Expecting value")))) |}.

(** "Hello Lain", written by user 7 (bob) in channel 5. *)
Definition hello_Lain : Discord.message :=
  {| Discord.author := 7; Discord.author_name := lit "bob";
     Discord.content := lit "Hello Lain"; Discord.mentions := [];
     Discord.channel_id := 5; Discord.attachments := [] |}.

(** The same in lower case. *)
Definition hello_lain : Discord.message :=
  {| Discord.author := 7; Discord.author_name := lit "bob";
     Discord.content := lit "hello lain"; Discord.mentions := [];
     Discord.channel_id := 5; Discord.attachments := [] |}.

(** "Hello Syntax", from the same user. *)
Definition hello_Syntax : Discord.message :=
  {| Discord.author := 7; Discord.author_name := lit "bob";
     Discord.content := lit "Hello Syntax"; Discord.mentions := [];
     Discord.channel_id := 5; Discord.attachments := [] |}.

(** "hello satoshi", without an attachment. *)
Definition hello_satoshi : Discord.message :=
  {| Discord.author := 7; Discord.author_name := lit "bob";
     Discord.content := lit "hello satoshi"; Discord.mentions := [];
     Discord.channel_id := 5; Discord.attachments := [] |}.

(** Discord answers a send with success or with an [HTTPException]. *)
Definition sends_fail_with_HTTPException (E : env) : Prop :=
  forall i channel text e,
    send_outcome E i channel text = Raise e -> exn_cls e = HTTPException.

(** Discord rejects every blank message. *)
Definition blank_rejecting_env (reply : str) : env :=
  {| bot_user := 42;
     send_outcome := fun _ _ text =>
       if forallb isspace text
       then Raise (Exn HTTPException (lit "400 Bad Request (error code: 50006): Cannot send an empty message"))
       else Return tt;
     chat_outcome := fun _ _ _ => Return (Ollama.RespContent reply);
     invoked_command := fun _ => None;
     get_image := get_image (quiet_env reply);
     jpeg_base64 := jpeg_base64 (quiet_env reply);
     post_outcome := post_outcome (quiet_env reply) |}.

(** ** Vocabulary for the trigger *)

(** The two spellings of a mention of the bot in the text of a message. *)
Definition mention (E : env) : str :=
  lit "<@" ++ str_of_N (bot_user E) ++ lit ">".

Definition nick_mention (E : env) : str :=
  lit "<@!" ++ str_of_N (bot_user E) ++ lit ">".

(** A first or last character, if there is one, is not whitespace. *)
Definition not_space (o : option ascii) : Prop :=
  match o with
  | Some c => isspace c = false
  | None => True
  end.

(** A text without the character that opens a mention. *)
Definition no_lt (s : str) : Prop := Forall (fun c => c <> "<"%char) s.

(** The decimal digits. *)
Definition isdigit (c : ascii) : bool :=
  let n := nat_of_ascii c in (48 <=? n) && (n <=? 57).

(** "so, hello lain what now? hello lain", written by user 7 (bob) in
    channel 5. *)
Definition so_hello_lain_twice : Discord.message :=
  {| Discord.author := 7; Discord.author_name := lit "bob";
     Discord.content := lit "so, hello lain what now? hello lain";
     Discord.mentions := [];
     Discord.channel_id := 5; Discord.attachments := [] |}.

(** What the two text bots make of the text of an addressed message:
    the shape [prompt_of] has in both scripts. *)
Definition extracted_prompt (E : env) (wake default content : str) : str :=
  let prompt := strip (replace (without_mentions E content) wake (lit "") (Some 1)) in
  if is_empty prompt then default else prompt.

(** The text an addressed message is reduced to before it is stripped. *)
Definition cut_text (E : env) (wake content : str) : str :=
  replace (without_mentions E content) wake (lit "") (Some 1).

(** Whitespace only. *)
Definition blank (s : str) : Prop := Forall (fun c => isspace c = true) s.

(** "<@!42> what is this? ", with the bot among the mentions. *)
Definition mentioning_lain : Discord.message :=
  {| Discord.author := 7; Discord.author_name := lit "bob";
     Discord.content := lit "<@!42> what is this? "; Discord.mentions := [42%N];
     Discord.channel_id := 5; Discord.attachments := [] |}.

(** ** Vocabulary for the traces *)

(** The texts of the sends of a trace, accepted or not, in order. *)
Definition sent_texts (tr : list event) : list str :=
  flat_map (fun e => match e with Send _ text _ => [text] | _ => [] end) tr.

(** What a delivery to [channel] may do: send there, print, and sleep
    for 15 seconds. *)
Definition delivery_event (channel : N) (e : event) : Prop :=
  match e with
  | Send c _ _ => c = channel
  | Sleep seconds => seconds = 15
  | Print _ => True
  | _ => False
  end.

(** Discord accepts every message. *)
Definition all_sends_accepted (E : env) : Prop :=
  forall i channel text, send_outcome E i channel text = Return tt.

(** The text a client hands on: the model's, or the fallback. *)
Definition text_of (fallback : str) (result : outcome str) : str :=
  match result with
  | Return text => text
  | Raise _ => fallback
  end.

(** The line a client prints when its call failed. *)
Definition error_lines (prefix : str) (result : outcome str) : list event :=
  match result with
  | Return _ => []
  | Raise e => [Print (prefix ++ exn_str e)]
  end.

(** The outcome of the model call of the global-context client started
    in state [b]. *)
Definition lain_result (E : env) (b : bot (list Lain.exchange)) (prompt : str)
    : outcome str :=
  call_result E (count is_chat (trace b)) Lain.MODEL
    (context_messages (history b) prompt).

(** The request of the per-channel client. *)
Definition syntax_messages (prompt : str) : list Ollama.chat_message :=
  [Ollama.ChatMessage (lit "system") Syntax.SYNTAX_PROMPT;
   Ollama.ChatMessage (lit "user") prompt].

(** The outcome of the model call of the per-channel client started in
    state [b]. *)
Definition syntax_result (E : env) (b : bot (gmap N (list Syntax.entry)))
    (prompt : str) : outcome str :=
  call_result E (count is_chat (trace b)) Syntax.MODEL (syntax_messages prompt).

(** What a turn of Lain adds to the trace, given what its delivery
    adds: typing on, the model call, the error line if any, the two
    log lines, the delivery, typing off. *)
Definition lain_turn_events (tag : str) (channel : N)
    (messages : list Ollama.chat_message) (result : outcome str)
    (delivery : list event) : list event :=
  let text := text_of Lain.FALLBACK result in
  Typing channel true
  :: OllamaChat Lain.MODEL messages
  :: error_lines (lit "Error in chat_with_lain: ") result
  ++ [Print (lit "Full response from Lain" ++ tag ++ lit ": " ++ text);
      Print (lit "Response length: " ++ str_of_N (N.of_nat (length text))
             ++ lit " characters")]
  ++ delivery
  ++ [Typing channel false].

(** The same for a turn of Syntax. *)
Definition syntax_turn_events (tag : str) (channel : N) (prompt : str)
    (result : outcome str) (delivery : list event) : list event :=
  let text := text_of Syntax.FALLBACK result in
  Typing channel true
  :: OllamaChat Syntax.MODEL (syntax_messages prompt)
  :: error_lines (lit "Error in chat_with_syntax: ") result
  ++ [Print (lit "Full response from Syntax" ++ tag ++ lit ": " ++ text)]
  ++ delivery
  ++ [Typing channel false].

(** 1 for [true], 0 for [false]. *)
Definition as_count (flag : bool) : nat := if flag then 1 else 0.

(** Whether the message invokes the bot's command. *)
Definition is_command (E : env) (message : Discord.message) : bool :=
  match invoked_command E message with Some _ => true | None => false end.

(** One list continues another. *)
Definition grew {X} (h h' : list X) : Prop := exists more, h' = h ++ more.

(** An image can be fetched, but not encoded. *)
Definition fetching_env : env :=
  {| bot_user := 42;
     send_outcome := fun _ _ _ => Return tt;
     chat_outcome := fun _ _ _ => Raise (Exn OtherError (lit "Connection refused"));
     invoked_command := fun _ => None;
     get_image := fun url =>
       if is_empty url then Raise (Exn OtherError (lit "Invalid URL ''"))
       else Return (lit "pixels");
     jpeg_base64 := fun _ => Raise (Exn OtherError (lit "cannot write mode"));
     post_outcome := fun _ _ _ => Raise (Exn OtherError (lit "Connection refused")) |}.

(** Every message is taken for the command, with its text as argument. *)
Definition command_env (reply : str) : env :=
  {| bot_user := 42;
     send_outcome := fun _ _ _ => Return tt;
     chat_outcome := fun _ _ _ => Return (Ollama.RespContent reply);
     invoked_command := fun message => Some (Discord.content message);
     get_image := get_image (quiet_env reply);
     jpeg_base64 := jpeg_base64 (quiet_env reply);
     post_outcome := post_outcome (quiet_env reply) |}.

(** "what is up?", written by user 7 (bob) in channel 5: no mention, no
    wake phrase. *)
Definition small_talk : Discord.message :=
  {| Discord.author := 7; Discord.author_name := lit "bob";
     Discord.content := lit "what is up?"; Discord.mentions := [];
     Discord.channel_id := 5; Discord.attachments := [] |}.

(** "!lain hello lain", which [command_env] takes for the command. *)
Definition bang_hello_lain : Discord.message :=
  {| Discord.author := 7; Discord.author_name := lit "bob";
     Discord.content := lit "!lain hello lain"; Discord.mentions := [];
     Discord.channel_id := 5; Discord.attachments := [] |}.

(** The image API answers 200 with a description. *)
Definition describing_env : env :=
  {| bot_user := 42;
     send_outcome := fun _ _ _ => Return tt;
     chat_outcome := fun _ _ _ => Raise (Exn OtherError (lit "Connection refused"));
     invoked_command := fun _ => None;
     get_image := fun _ => Return (lit "pixels");
     jpeg_base64 := fun _ => Return (lit "/9j/4AAQ");
     post_outcome := fun _ _ _ =>
       Return (Requests.Response 200 (lit "{}")
                 (Return (Requests.JsonDict (Some (lit "A cat.")))))  |}.

(** ** Vocabulary for sends that fail otherwise *)

(** The connection to Discord breaks: not an [HTTPException]. *)
Definition connection_reset : exn :=
  Exn OtherError (lit "[Errno 104] Connection reset by peer").

(** Like [quiet_env], but the send number [k] (counting from 0) fails
    for a broken connection. *)
Definition breaking_env (k : nat) (reply : str) : env :=
  {| bot_user := 42;
     send_outcome := fun i _ _ =>
       if i =? k then Raise connection_reset else Return tt;
     chat_outcome := chat_outcome (quiet_env reply);
     invoked_command := fun _ => None;
     get_image := get_image (quiet_env reply);
     jpeg_base64 := jpeg_base64 (quiet_env reply);
     post_outcome := post_outcome (quiet_env reply) |}.

Definition is_get (e : event) : bool :=
  match e with HttpGet _ => true | _ => false end.

(** * Properties *)

(** ** Chunking *)

Section Chunking.
Context {A : Type}.
Implicit Types (R : list A) (k i fuel : nat).

Lemma slice_length R i k : length (slice R i (i + k)) <= k.
Proof.
  unfold slice. replace (i + k - i) with k by lia.
  rewrite length_take. lia.
Qed.

Lemma slice_drop R i k :
  slice R i (i + k) ++ drop (i + k) R = drop i R.
Proof.
  unfold slice. replace (i + k - i) with k by lia.
  rewrite <- drop_drop. apply take_drop.
Qed.

(** The loop visits [i], [i + k], ... and the slices taken there
    rebuild the rest of the response from [i] on. *)
Lemma range_loop_concat R k fuel i :
  0 < k -> length R - i <= fuel ->
  concat (map (fun j => slice R j (j + k)) (range_loop fuel i (length R) k))
  = drop i R.
Proof.
  intros Hk. revert i.
  induction fuel as [|fuel IH]; intros i Hfuel; simpl.
  - symmetry. apply drop_ge. lia.
  - destruct (Nat.ltb_spec i (length R)) as [Hlt|Hge]; simpl.
    + rewrite IH by lia. apply slice_drop.
    + symmetry. apply drop_ge. lia.
Qed.

Lemma range_loop_length n k fuel i :
  0 < k -> n - i <= fuel ->
  length (range_loop fuel i n k) = (n - i + (k - 1)) / k.
Proof.
  intros Hk. revert i.
  induction fuel as [|fuel IH]; intros i Hfuel; simpl.
  - replace (n - i) with 0 by lia. simpl.
    symmetry. apply Nat.div_small. lia.
  - destruct (Nat.ltb_spec i n) as [Hlt|Hge]; simpl.
    + rewrite IH by lia.
      destruct (Nat.le_gt_cases k (n - i)) as [Hbig|Hsmall].
      * replace (n - i + (k - 1)) with (n - (i + k) + (k - 1) + 1 * k) by lia.
        rewrite Nat.div_add by lia. lia.
      * replace (n - (i + k)) with 0 by lia. simpl.
        rewrite (Nat.div_small (k - 1) k) by lia.
        apply (Nat.div_unique _ _ 1 (n - i - 1)); lia.
    + replace (n - i) with 0 by lia. simpl.
      symmetry. apply Nat.div_small. lia.
Qed.

Lemma chunks_of_concat R k : 0 < k -> concat (chunks_of k R) = R.
Proof.
  intros Hk. unfold chunks_of, range.
  rewrite range_loop_concat by lia. reflexivity.
Qed.

Lemma chunks_of_bounded R k : Forall (fun c => length c <= k) (chunks_of k R).
Proof.
  unfold chunks_of. apply Forall_map, Forall_forall.
  intros j _. apply slice_length.
Qed.

Lemma chunks_of_length R k :
  0 < k -> length (chunks_of k R) = (length R + (k - 1)) / k.
Proof.
  intros Hk. unfold chunks_of, range.
  rewrite length_map, range_loop_length by lia.
  f_equal. lia.
Qed.

Lemma chunks_of_nil k : chunks_of k (@nil A) = [].
Proof. reflexivity. Qed.

End Chunking.

Lemma chunks_length (response : str) :
  length (chunks response) = (length response + 1999) / 2000.
Proof.
  unfold chunks. rewrite chunks_of_length by (unfold CHUNK; lia). reflexivity.
Qed.

(** C1. For every response, the chunks are at most 2000 characters
    long each, their concatenation in order is the response itself (so
    their lengths add up to its length), and there are
    ceil(len / 2000) of them: none for the empty response. *)
Theorem chunks_partition_response (response : str) :
  concat (chunks response) = response
  /\ Forall (fun chunk => length chunk <= 2000) (chunks response)
  /\ length (chunks response) = (length response + 1999) / 2000
  /\ 2000 * (length (chunks response) - 1) < length response + 1
       <= 2000 * length (chunks response) + 1
  /\ list_sum (map length (chunks response)) = length response
  /\ chunks [] = [].
Proof.
  assert (Hk : 0 < CHUNK) by (unfold CHUNK; lia).
  pose proof (chunks_length response) as Hlen.
  split; [apply chunks_of_concat; exact Hk|].
  split; [apply (chunks_of_bounded response CHUNK)|].
  split; [exact Hlen|].
  split.
  - rewrite Hlen.
    pose proof (Nat.div_mod_eq (length response + 1999) 2000) as Hdm.
    pose proof (Nat.mod_upper_bound (length response + 1999) 2000) as Hm.
    lia.
  - split.
    + rewrite <- (chunks_of_concat response CHUNK Hk) at 2.
      unfold chunks. generalize (chunks_of CHUNK response).
      induction l as [|c l IH]; simpl; [reflexivity|].
      rewrite length_app, IH. reflexivity.
    + reflexivity.
Qed.

(** ** Delivery *)

Lemma count_app p tr1 tr2 : count p (tr1 ++ tr2) = count p tr1 + count p tr2.
Proof. unfold count. rewrite List.filter_app, length_app. reflexivity. Qed.

Lemma count_nil p : count p [] = 0.
Proof. reflexivity. Qed.

Section DeliveryProofs.
Context {H : Type} (E : env).
Implicit Types (b : bot H) (channel : N) (l : list str).

Lemma send_run channel text b :
  send E channel text b =
  (send_outcome E (count is_send (trace b)) channel text,
   Bot (history b)
       (trace b ++ [Send channel text
                      (send_outcome E (count is_send (trace b)) channel text)])).
Proof. reflexivity. Qed.

Lemma deliver_step_run channel n idx chunk b :
  deliver_step E channel n (idx, chunk) b =
  match send_outcome E (count is_send (trace b)) channel chunk with
  | Return _ =>
      (Return Continue,
       Bot (history b)
           (trace b ++ Send channel chunk (Return tt)
              :: (if (Z.of_nat idx <? Z.of_nat n - 1)%Z then pause else [])))
  | Raise e =>
      match exn_cls e with
      | HTTPException =>
          (Return Break,
           Bot (history b)
               (trace b ++ [Send channel chunk (Raise e);
                            Print (lit "Failed to send message: " ++ exn_str e)]))
      | _ => (Raise e, Bot (history b) (trace b ++ [Send channel chunk (Raise e)]))
      end
  end.
Proof.
  unfold deliver_step, try_except, bind. rewrite send_run.
  destruct (send_outcome E (count is_send (trace b)) channel chunk) as [[]|e].
  - destruct (Z.of_nat idx <? Z.of_nat n - 1)%Z; simpl;
      rewrite <- ?app_assoc; reflexivity.
  - unfold except_HTTPException.
    destruct (exn_cls e); simpl; rewrite <- ?app_assoc; reflexivity.
Qed.

(** Every send succeeds: the loop runs to its end. *)
Lemma for_each_all_sent channel l : forall i0 n b,
  n = i0 + length l ->
  (forall j chunk, l !! j = Some chunk ->
     send_outcome E (count is_send (trace b) + j) channel chunk = Return tt) ->
  for_each (combine (seq i0 (length l)) l) (deliver_step E channel n) b
  = (Return tt, Bot (history b) (trace b ++ paced channel l)).
Proof.
  induction l as [|chunk rest IH]; intros i0 n b Hn Hok.
  - simpl. rewrite app_nil_r. destruct b; reflexivity.
  - cbn [length seq combine for_each]. unfold bind at 1.
    rewrite deliver_step_run.
    pose proof (Hok 0 chunk eq_refl) as H0. rewrite Nat.add_0_r in H0.
    rewrite H0.
    rewrite (IH (S i0) n) ; cbn [history trace].
    + f_equal. f_equal. rewrite <- app_assoc. f_equal.
      destruct rest as [|c2 rest'].
      * cbn [length] in Hn.
        destruct (Z.ltb_spec (Z.of_nat i0) (Z.of_nat n - 1)); [lia|].
        reflexivity.
      * cbn [length] in Hn.
        destruct (Z.ltb_spec (Z.of_nat i0) (Z.of_nat n - 1)); [|lia].
        reflexivity.
    + cbn [length] in Hn. lia.
    + intros j c Hj.
      assert (Hcount :
        count is_send
          (trace b ++ Send channel chunk (Return tt)
             :: (if (Z.of_nat i0 <? Z.of_nat n - 1)%Z then pause else []))
        = S (count is_send (trace b))).
      { rewrite count_app.
        destruct (Z.of_nat i0 <? Z.of_nat n - 1)%Z; unfold count; simpl; lia. }
      rewrite Hcount.
      replace (S (count is_send (trace b)) + j)
        with (count is_send (trace b) + S j) by lia.
      apply Hok. exact Hj.
Qed.

(** The sends before [chunk] succeed and the send of [chunk] is
    rejected: the loop stops there. *)
Lemma for_each_rejected channel pre chunk post e : forall i0 n b,
  n = i0 + length (pre ++ chunk :: post) ->
  (forall j c, pre !! j = Some c ->
     send_outcome E (count is_send (trace b) + j) channel c = Return tt) ->
  send_outcome E (count is_send (trace b) + length pre) channel chunk = Raise e ->
  exn_cls e = HTTPException ->
  for_each (combine (seq i0 (length (pre ++ chunk :: post))) (pre ++ chunk :: post))
           (deliver_step E channel n) b
  = (Return tt,
     Bot (history b)
         (trace b ++ sent_and_paused channel pre
            ++ [Send channel chunk (Raise e);
                Print (lit "Failed to send message: " ++ exn_str e)])).
Proof.
  induction pre as [|c0 pre IH]; intros i0 n b Hn Hok Hfail Hcls.
  - cbn [app length seq combine for_each]. unfold bind at 1.
    rewrite deliver_step_run.
    cbn [length] in Hfail. rewrite Nat.add_0_r in Hfail.
    rewrite Hfail, Hcls. reflexivity.
  - cbn [app length seq combine for_each]. unfold bind at 1.
    rewrite deliver_step_run.
    pose proof (Hok 0 c0 eq_refl) as H0. rewrite Nat.add_0_r in H0.
    rewrite H0.
    assert (Hlt : (Z.of_nat i0 <? Z.of_nat n - 1)%Z = true).
    { apply Z.ltb_lt. cbn [app length] in Hn. rewrite length_app in Hn.
      cbn [length] in Hn. lia. }
    rewrite Hlt.
    assert (Hcount : count is_send (trace b ++ Send channel c0 (Return tt) :: pause)
                     = S (count is_send (trace b))).
    { rewrite count_app. unfold count. simpl. lia. }
    rewrite (IH (S i0) n); cbn [history trace].
    + f_equal. f_equal. rewrite <- app_assoc. reflexivity.
    + cbn [app length] in Hn. lia.
    + intros j c Hj. rewrite Hcount.
      replace (S (count is_send (trace b)) + j)
        with (count is_send (trace b) + S j) by lia.
      apply Hok. exact Hj.
    + rewrite Hcount.
      replace (S (count is_send (trace b)) + length pre)
        with (count is_send (trace b) + length (c0 :: pre))
        by (cbn [length]; lia).
      exact Hfail.
    + exact Hcls.
Qed.

(** The same, but the send of [chunk] raises an exception of another
    class: the loop does not catch it. *)
Lemma for_each_raised channel pre chunk post e : forall i0 n b,
  n = i0 + length (pre ++ chunk :: post) ->
  (forall j c, pre !! j = Some c ->
     send_outcome E (count is_send (trace b) + j) channel c = Return tt) ->
  send_outcome E (count is_send (trace b) + length pre) channel chunk = Raise e ->
  exn_cls e <> HTTPException ->
  for_each (combine (seq i0 (length (pre ++ chunk :: post))) (pre ++ chunk :: post))
           (deliver_step E channel n) b
  = (Raise e,
     Bot (history b)
         (trace b ++ sent_and_paused channel pre
            ++ [Send channel chunk (Raise e)])).
Proof.
  induction pre as [|c0 pre IH]; intros i0 n b Hn Hok Hfail Hcls.
  - cbn [app length seq combine for_each]. unfold bind at 1.
    rewrite deliver_step_run.
    cbn [length] in Hfail. rewrite Nat.add_0_r in Hfail.
    rewrite Hfail. destruct (exn_cls e); [congruence|reflexivity..].
  - cbn [app length seq combine for_each]. unfold bind at 1.
    rewrite deliver_step_run.
    pose proof (Hok 0 c0 eq_refl) as H0. rewrite Nat.add_0_r in H0.
    rewrite H0.
    assert (Hlt : (Z.of_nat i0 <? Z.of_nat n - 1)%Z = true).
    { apply Z.ltb_lt. cbn [app length] in Hn. rewrite length_app in Hn.
      cbn [length] in Hn. lia. }
    rewrite Hlt.
    assert (Hcount : count is_send (trace b ++ Send channel c0 (Return tt) :: pause)
                     = S (count is_send (trace b))).
    { rewrite count_app. unfold count. simpl. lia. }
    rewrite (IH (S i0) n); cbn [history trace].
    + f_equal. f_equal. rewrite <- app_assoc. reflexivity.
    + cbn [app length] in Hn. lia.
    + intros j c Hj. rewrite Hcount.
      replace (S (count is_send (trace b)) + j)
        with (count is_send (trace b) + S j) by lia.
      apply Hok. exact Hj.
    + rewrite Hcount.
      replace (S (count is_send (trace b)) + length pre)
        with (count is_send (trace b) + length (c0 :: pre))
        by (cbn [length]; lia).
      exact Hfail.
    + exact Hcls.
Qed.

(** No send raises anything but [HTTPException]: the loop returns, and
    it sent at most once per item. *)
Lemma for_each_returns channel l : forall i0 n b,
  (forall i ch text e,
     send_outcome E i ch text = Raise e -> exn_cls e = HTTPException) ->
  exists new,
    for_each (combine (seq i0 (length l)) l) (deliver_step E channel n) b
    = (Return tt, Bot (history b) (trace b ++ new))
    /\ count is_send new <= length l.
Proof.
  induction l as [|chunk rest IH]; intros i0 n b Hhttp.
  - exists []. simpl. rewrite app_nil_r. destruct b. split; [reflexivity|].
    unfold count. simpl. lia.
  - cbn [length seq combine for_each]. unfold bind at 1.
    rewrite deliver_step_run.
    destruct (send_outcome E (count is_send (trace b)) channel chunk)
      as [[]|e] eqn:Hout.
    + set (b1 := Bot _ _).
      destruct (IH (S i0) n b1 Hhttp) as (new & Hrun & Hle).
      rewrite Hrun. subst b1. cbn [history trace].
      eexists. rewrite <- app_assoc. split; [reflexivity|].
      rewrite count_app.
      destruct (Z.of_nat i0 <? Z.of_nat n - 1)%Z;
        unfold count in *; simpl; lia.
    + rewrite (Hhttp _ _ _ _ Hout).
      eexists. split; [reflexivity|]. unfold count. simpl. lia.
Qed.

End DeliveryProofs.

Lemma paced_sends channel (l : list str) :
  List.filter is_send (paced channel l)
  = map (fun chunk => Send channel chunk (Return tt)) l.
Proof.
  induction l as [|c [|c2 rest] IH]; [reflexivity..|].
  change (paced channel (c :: c2 :: rest))
    with (Send channel c (Return tt) :: pause ++ paced channel (c2 :: rest)).
  cbn [List.filter is_send pause app]. rewrite IH. reflexivity.
Qed.

Lemma paced_sleeps channel (l : list str) :
  List.filter is_sleep (paced channel l) = repeat (Sleep 15) (length l - 1).
Proof.
  induction l as [|c [|c2 rest] IH]; [reflexivity..|].
  change (paced channel (c :: c2 :: rest))
    with (Send channel c (Return tt) :: pause ++ paced channel (c2 :: rest)).
  cbn [List.filter is_sleep pause app]. rewrite IH.
  cbn [length].
  replace (S (S (length rest)) - 1) with (S (S (length rest) - 1)) by lia.
  reflexivity.
Qed.

Lemma sent_and_paused_sends channel (l : list str) :
  List.filter is_send (sent_and_paused channel l)
  = map (fun chunk => Send channel chunk (Return tt)) l.
Proof.
  induction l as [|c rest IH]; [reflexivity|].
  cbn [sent_and_paused flat_map pause app List.filter is_send map].
  f_equal. exact IH.
Qed.

(** C3. In a delivery of N chunks in which every send succeeds, the
    bot sends the chunks in their order and pauses N-1 times, for 15
    seconds each, once after every chunk but the last. *)
Theorem delivery_is_paced {H} (E : env) (channel : N) (response : str)
    (b : bot H) :
  (forall j chunk, chunks response !! j = Some chunk ->
     send_outcome E (count is_send (trace b) + j) channel chunk = Return tt) ->
  let new := paced channel (chunks response) in
  deliver E channel response b = (Return tt, Bot (history b) (trace b ++ new))
  /\ List.filter is_send new
     = map (fun chunk => Send channel chunk (Return tt)) (chunks response)
  /\ List.filter is_sleep new
     = repeat (Sleep 15) (length (chunks response) - 1).
Proof.
  intros Hok new. split; [|split].
  - unfold deliver, enumerate.
    apply for_each_all_sent; [reflexivity|exact Hok].
  - apply paced_sends.
  - apply paced_sleeps.
Qed.

Lemma delivery_is_paced_witness :
  (forall j chunk, chunks long_response !! j = Some chunk ->
     send_outcome (quiet_env []) (count is_send [] + j) 5 chunk = Return tt)
  /\ deliver (quiet_env []) 5 long_response (Bot tt [])
     = (Return tt, Bot tt ([] ++ paced 5 (chunks long_response)))
  /\ length (List.filter is_sleep (paced 5 (chunks long_response))) = 2.
Proof.
  split; [intros; reflexivity|].
  destruct (delivery_is_paced (quiet_env []) 5 long_response (Bot tt []))
    as (Hrun & _ & Hsleeps).
  - intros; reflexivity.
  - split; [exact Hrun|]. rewrite Hsleeps. vm_compute. reflexivity.
Defined.

(** C4, as stated, fails for a send that fails otherwise than by
    Discord's [HTTPException]: the loop does not catch the exception,
    so nothing is printed and the delivery does not return normally. *)
Lemma unexpected_send_failure_is_not_logged :
  ~ (forall (E : env) (channel : N) (response : str) (b : bot unit)
            (k : nat) (chunk : str) (e : exn),
       chunks response !! k = Some chunk ->
       (forall j c, take k (chunks response) !! j = Some c ->
          send_outcome E (count is_send (trace b) + j) channel c = Return tt) ->
       send_outcome E (count is_send (trace b) + k) channel chunk = Raise e ->
       fst (deliver E channel response b) = Return tt
       /\ In (Print (lit "Failed to send message: " ++ exn_str e))
             (trace (snd (deliver E channel response b)))).
Proof.
  intros Hclaim.
  destruct (Hclaim (breaking_env 1 []) 5%N long_response (Bot tt []) 1
              full_chunk connection_reset) as [Hreturns _].
  - vm_compute. reflexivity.
  - intros [|j] c Hj.
    + reflexivity.
    + apply lookup_lt_Some in Hj. rewrite length_take in Hj. simpl in Hj. lia.
  - reflexivity.
  - vm_compute in Hreturns. discriminate.
Qed.

(** C4, amended. When the send of chunk k fails (the sends before it
    having succeeded), the chunks before k went out in order, chunk k
    was attempted once and nothing after it is attempted, with the
    history untouched.  When the failure is Discord's [HTTPException],
    it is printed and the delivery returns normally; an exception of
    another class is not caught: nothing is printed and the delivery
    ends with that exception. *)
Theorem delivery_stops_at_failed_chunk {H} (E : env) (channel : N)
    (response : str) (b : bot H) (k : nat) (chunk : str) (e : exn) :
  chunks response !! k = Some chunk ->
  (forall j c, take k (chunks response) !! j = Some c ->
     send_outcome E (count is_send (trace b) + j) channel c = Return tt) ->
  send_outcome E (count is_send (trace b) + k) channel chunk = Raise e ->
  let attempted :=
    sent_and_paused channel (take k (chunks response))
    ++ [Send channel chunk (Raise e)] in
  List.filter is_send attempted
  = map (fun c => Send channel c (Return tt)) (take k (chunks response))
    ++ [Send channel chunk (Raise e)]
  /\ deliver E channel response b
     = match exn_cls e with
       | HTTPException =>
           (Return tt,
            Bot (history b)
                (trace b ++ attempted
                   ++ [Print (lit "Failed to send message: " ++ exn_str e)]))
       | _ => (Raise e, Bot (history b) (trace b ++ attempted))
       end.
Proof.
  intros Hk Hok Hfail attempted. subst attempted.
  assert (Hlen : length (take k (chunks response)) = k).
  { apply lookup_lt_Some in Hk. rewrite length_take. lia. }
  split.
  - rewrite List.filter_app, sent_and_paused_sends. reflexivity.
  - unfold deliver, enumerate.
    pose proof (take_drop_middle _ _ _ Hk) as Hsplit.
    rewrite <- Hlen in Hfail.
    remember (take k (chunks response)) as pre eqn:Hpre.
    remember (drop (S k) (chunks response)) as post eqn:Hpost.
    rewrite <- Hsplit.
    destruct (exn_cls e) eqn:Hcls.
    + rewrite (for_each_rejected E channel pre chunk post e);
        [|reflexivity|exact Hok|exact Hfail|exact Hcls].
      rewrite <- !app_assoc. reflexivity.
    + apply for_each_raised; [reflexivity|exact Hok|exact Hfail|congruence].
    + apply for_each_raised; [reflexivity|exact Hok|exact Hfail|congruence].
    + apply for_each_raised; [reflexivity|exact Hok|exact Hfail|congruence].
Qed.

Lemma delivery_stops_at_failed_chunk_witness :
  chunks long_response !! 1 = Some full_chunk
  /\ send_outcome (rejecting_env 1 []) (count is_send [] + 1) 5 full_chunk
     = Raise bad_request
  /\ deliver (rejecting_env 1 []) 5 long_response (Bot tt [])
     = (Return tt,
        Bot tt ([] ++ (sent_and_paused 5 (take 1 (chunks long_response))
                       ++ [Send 5 full_chunk (Raise bad_request)])
                  ++ [Print (lit "Failed to send message: "
                             ++ exn_str bad_request)])).
Proof.
  assert (Hk : chunks long_response !! 1 = Some full_chunk)
    by (vm_compute; reflexivity).
  split; [exact Hk|]. split; [reflexivity|].
  refine (proj2 (delivery_stops_at_failed_chunk (rejecting_env 1 []) 5
                   long_response (Bot tt []) 1 full_chunk bad_request Hk _ eq_refl)).
  intros [|j] c Hj.
  - reflexivity.
  - apply lookup_lt_Some in Hj. rewrite length_take in Hj. simpl in Hj. lia.
Defined.

(** ** What a coroutine may do to the conversation store *)

Section Frames.
Context {H : Type} (P : H -> H -> Prop).
Hypothesis P_refl : forall h, P h h.
Hypothesis P_trans : forall h1 h2 h3, P h1 h2 -> P h2 h3 -> P h1 h3.

Lemma frames_ret {A} (a : A) : frames P (ret a).
Proof. intros b. apply P_refl. Qed.

Lemma frames_raise {A} e : frames P (@raise H A e).
Proof. intros b. apply P_refl. Qed.

Lemma frames_lift {A} (o : outcome A) : frames P (lift o).
Proof. intros b. apply P_refl. Qed.

Lemma frames_emit e : frames P (emit e).
Proof. intros b. apply P_refl. Qed.

Lemma frames_get_trace : frames P get_trace.
Proof. intros b. apply P_refl. Qed.

Lemma frames_get_history : frames P get_history.
Proof. intros b. apply P_refl. Qed.

Lemma frames_update f : (forall h, P h (f h)) -> frames P (update_history f).
Proof. intros Hf b. apply Hf. Qed.

Lemma frames_bind {A B} (m : M H A) (k : A -> M H B) :
  frames P m -> (forall a, frames P (k a)) -> frames P (bind m k).
Proof.
  intros Hm Hk b. unfold bind. specialize (Hm b).
  destruct (m b) as [[a|e] b1]; simpl in *.
  - eapply P_trans; [exact Hm|apply Hk].
  - exact Hm.
Qed.

Lemma frames_try_except {A} (body : M H A) handler :
  frames P body ->
  (forall e h, handler e = Some h -> frames P h) ->
  frames P (try_except body handler).
Proof.
  intros Hbody Hh b. unfold try_except. specialize (Hbody b).
  destruct (body b) as [[a|e] b1]; simpl in *; [exact Hbody|].
  destruct (handler e) as [h|] eqn:He; [|exact Hbody].
  eapply P_trans; [exact Hbody|apply (Hh e h He)].
Qed.

Lemma frames_with_typing {A} channel (body : M H A) :
  frames P body -> frames P (with_typing channel body).
Proof.
  intros Hbody b. unfold with_typing.
  pose proof (frames_bind (emit (Typing channel true)) (fun _ => body)
                (frames_emit _) (fun _ => Hbody) b) as Hb.
  destruct ((emit (Typing channel true) ;; body) b) as [r b1].
  exact Hb.
Qed.

Lemma frames_for_each {X} (items : list X) body :
  (forall x, frames P (body x)) -> frames P (for_each items body).
Proof.
  intros Hbody. induction items as [|x rest IH]; simpl.
  - apply frames_ret.
  - apply frames_bind; [apply Hbody|].
    intros [|]; [exact IH|apply frames_ret].
Qed.

Lemma frames_print line : frames P (print line).
Proof. apply frames_emit. Qed.

Lemma frames_send E channel text : frames P (send E channel text).
Proof.
  unfold send. apply frames_bind; [apply frames_get_trace|]. intros tr.
  apply frames_bind; [apply frames_emit|]. intros _. apply frames_lift.
Qed.

Lemma frames_deliver_step E channel n item : frames P (deliver_step E channel n item).
Proof.
  destruct item as [idx chunk]. unfold deliver_step.
  apply frames_try_except.
  - apply frames_bind; [apply frames_send|]. intros _.
    apply frames_bind; [|intros _; apply frames_ret].
    destruct (Z.of_nat idx <? Z.of_nat n - 1)%Z; [|apply frames_ret].
    apply frames_bind; [apply frames_print|]. intros _. apply frames_emit.
  - intros e h. unfold except_HTTPException.
    destruct (exn_cls e); intros [= <-].
    apply frames_bind; [apply frames_print|]. intros _. apply frames_ret.
Qed.

Lemma frames_deliver E channel response : frames P (deliver E channel response).
Proof. apply frames_for_each. intros x. apply frames_deliver_step. Qed.

Lemma frames_ollama_chat E model messages : frames P (ollama_chat E model messages).
Proof.
  unfold ollama_chat. apply frames_bind; [apply frames_get_trace|]. intros tr.
  apply frames_bind; [apply frames_emit|]. intros _. apply frames_lift.
Qed.

Lemma frames_process_commands E chat message :
  (forall prompt, frames P (chat message prompt)) ->
  frames P (process_commands E chat message).
Proof.
  intros Hchat. unfold process_commands.
  destruct (invoked_command E message) as [prompt|]; [|apply frames_ret].
  apply frames_try_except; [apply Hchat|].
  intros e h [= <-]. apply frames_ret.
Qed.

End Frames.

(** The delivery of a response leaves the store as it was. *)
Lemma deliver_keeps_history {H} E channel response (b : bot H) :
  history (snd (deliver E channel response b)) = history b.
Proof.
  symmetry. apply (frames_deliver eq); [reflexivity|].
  intros h1 h2 h3 -> ->. reflexivity.
Qed.

(** ** The model clients *)

Lemma replay_flat_map history : forall messages,
  Lain.replay messages history
  = messages
    ++ flat_map (fun entry =>
                   [Ollama.ChatMessage (lit "user") (Lain.user entry);
                    Ollama.ChatMessage (lit "assistant") (Lain.lain entry)])
                history.
Proof.
  induction history as [|entry rest IH]; intros messages.
  - simpl. rewrite app_nil_r. reflexivity.
  - cbn [Lain.replay fold_left flat_map]. fold (Lain.replay).
    change (fold_left _ rest ?acc) with (Lain.replay acc rest).
    rewrite IH, <- !app_assoc. reflexivity.
Qed.

Lemma context_messages_length history prompt :
  length (context_messages history prompt) = 2 * length history + 2.
Proof.
  unfold context_messages. cbn [length]. rewrite length_app. cbn [length].
  induction history as [|entry rest IH]; cbn [flat_map length app] in *; lia.
Qed.

Lemma chat_with_lain_run E prompt b :
  let messages := context_messages (history b) prompt in
  let called := trace b ++ [OllamaChat Lain.MODEL messages] in
  Lain.chat_with_lain E prompt b =
  match call_result E (count is_chat (trace b)) Lain.MODEL messages with
  | Return text =>
      (Return text, Bot (history b ++ [Lain.Exchange prompt text]) called)
  | Raise e =>
      (Return Lain.FALLBACK,
       Bot (history b)
           (called ++ [Print (lit "Error in chat_with_lain: " ++ exn_str e)]))
  end.
Proof.
  intros messages called. subst messages called.
  unfold Lain.chat_with_lain, ollama_chat, print, try_except, get_history,
    get_trace, emit, lift, update_history, ret, except_Exception,
    call_result, bind.
  cbn [history trace].
  rewrite replay_flat_map. cbn [app]. fold (context_messages (history b) prompt).
  destruct (chat_outcome E _ _ _) as [[text| |]|e]; reflexivity.
Qed.

Lemma chat_with_syntax_run E prompt b :
  let messages := [Ollama.ChatMessage (lit "system") Syntax.SYNTAX_PROMPT;
                   Ollama.ChatMessage (lit "user") prompt] in
  let called := trace b ++ [OllamaChat Syntax.MODEL messages] in
  Syntax.chat_with_syntax E prompt b =
  match call_result E (count is_chat (trace b)) Syntax.MODEL messages with
  | Return text => (Return text, Bot (history b) called)
  | Raise e =>
      (Return Syntax.FALLBACK,
       Bot (history b)
           (called ++ [Print (lit "Error in chat_with_syntax: " ++ exn_str e)]))
  end.
Proof.
  intros messages called. subst messages called.
  unfold Syntax.chat_with_syntax, ollama_chat, print, try_except,
    get_trace, emit, lift, ret, except_Exception, call_result, bind.
  cbn [history trace].
  destruct (chat_outcome E _ _ _) as [[text| |]|e]; reflexivity.
Qed.

(** C8. A call of the global-context client with N recorded exchanges
    sends the model exactly one request, whose messages are the system
    message, a user and an assistant message per exchange in stored
    order, and the new prompt as the last user message: 2N+2 messages,
    two when the history is empty.  The per-channel client always sends
    the system message and the prompt, whatever its history holds. *)
Theorem model_context_is_history_then_prompt (E : env) (prompt : str) :
  (forall b : bot (list Lain.exchange),
     let messages := context_messages (history b) prompt in
     exists new,
       trace (snd (Lain.chat_with_lain E prompt b)) = trace b ++ new
       /\ List.filter is_chat new = [OllamaChat Lain.MODEL messages]
       /\ length messages = 2 * length (history b) + 2)
  /\ context_messages [] prompt
     = [Ollama.ChatMessage (lit "system") Lain.LAIN_PROMPT;
        Ollama.ChatMessage (lit "user") prompt]
  /\ (forall b : bot (gmap N (list Syntax.entry)),
        exists new,
          trace (snd (Syntax.chat_with_syntax E prompt b)) = trace b ++ new
          /\ List.filter is_chat new
             = [OllamaChat Syntax.MODEL
                  [Ollama.ChatMessage (lit "system") Syntax.SYNTAX_PROMPT;
                   Ollama.ChatMessage (lit "user") prompt]]).
Proof.
  split; [|split].
  - intros b messages. rewrite chat_with_lain_run. fold messages.
    destruct (call_result E _ _ _) as [text|e]; cbn [snd trace].
    + exists [OllamaChat Lain.MODEL messages].
      repeat split. apply context_messages_length.
    + exists [OllamaChat Lain.MODEL messages;
              Print (lit "Error in chat_with_lain: " ++ exn_str e)].
      rewrite <- app_assoc.
      repeat split. apply context_messages_length.
  - reflexivity.
  - intros b. rewrite chat_with_syntax_run.
    destruct (call_result E _ _ _) as [text|e]; cbn [snd trace].
    + eexists. split; reflexivity.
    + eexists. rewrite <- app_assoc. split; reflexivity.
Qed.

(** ** The conversation stores *)

Lemma bind_return {H A B} (m : M H A) (k : A -> M H B) b a b1 :
  m b = (Return a, b1) -> bind m k b = k a b1.
Proof. intros Hm. unfold bind. rewrite Hm. reflexivity. Qed.

Lemma with_typing_history {H A} channel (body : M H A) b :
  history (snd (with_typing channel body b))
  = history (snd (body (Bot (history b) (trace b ++ [Typing channel true])))).
Proof.
  unfold with_typing, bind, emit.
  destruct (body _) as [r b1]. reflexivity.
Qed.

Lemma count_chat_after_call tr model messages rest :
  forallb (fun e => negb (is_chat e)) rest = true ->
  count is_chat (tr ++ OllamaChat model messages :: rest) = S (count is_chat tr).
Proof.
  intros Hrest. rewrite count_app. unfold count at 2. cbn [List.filter is_chat length].
  assert (List.filter is_chat rest = []) as ->; [|simpl; lia].
  induction rest as [|e rest IH]; [reflexivity|].
  cbn [forallb] in Hrest. apply andb_prop in Hrest as [He Hrest].
  cbn [List.filter]. destruct (is_chat e); [discriminate|]. apply IH, Hrest.
Qed.

(** Every model call of the series succeeds: the series returns the
    replies and has recorded one exchange per call, in call order. *)
Lemma calls_all_succeed E prompts : forall replies (b : bot (list Lain.exchange)),
  length replies = length prompts ->
  (forall i model messages reply, replies !! i = Some reply ->
     call_result E (count is_chat (trace b) + i) model messages = Return reply) ->
  exists tr,
    lain_calls E prompts b
    = (Return replies,
       Bot (history b ++ zip_with Lain.Exchange prompts replies) tr).
Proof.
  induction prompts as [|p rest IH]; intros replies b Hlen Hok.
  - destruct replies; [|discriminate]. exists (trace b).
    simpl. rewrite app_nil_r. destruct b; reflexivity.
  - destruct replies as [|r replies]; [discriminate|].
    cbn [lain_calls].
    pose proof (Hok 0 Lain.MODEL (context_messages (history b) p) r eq_refl) as H0.
    rewrite Nat.add_0_r in H0.
    pose proof (chat_with_lain_run E p b) as Hrun. cbv zeta in Hrun.
    rewrite H0 in Hrun.
    rewrite (bind_return _ _ _ _ _ Hrun).
    set (b1 := Bot _ _) in *.
    destruct (IH replies b1) as (tr & Hrest).
    + cbn [length] in Hlen. lia.
    + intros i model messages reply Hi. subst b1. cbn [trace].
      rewrite (count_chat_after_call _ _ _ []) by reflexivity.
      replace (S (count is_chat (trace b)) + i)
        with (count is_chat (trace b) + S i) by lia.
      apply Hok. exact Hi.
    + exists tr. rewrite (bind_return _ _ _ _ _ Hrest).
      unfold ret. subst b1. cbn [history zip_with].
      rewrite <- app_assoc. reflexivity.
Qed.

Lemma syntax_turn_history E message b :
  let channel := Discord.channel_id message in
  let prompt := Syntax.prompt_of E message in
  history (snd (Syntax.turn E message b))
  = Syntax.append_entry channel (Syntax.SyntaxReply (syntax_reply E b prompt))
      (Syntax.append_entry channel
         (Syntax.UserPrompt (Discord.author_name message) prompt)
         (history b)).
Proof.
  intros channel prompt. unfold Syntax.turn. fold channel prompt.
  unfold bind at 1. unfold update_history at 1. cbn [history trace].
  rewrite with_typing_history. cbn [history trace].
  set (b1 := Bot _ _).
  pose proof (chat_with_syntax_run E prompt b1) as Hrun. cbv zeta in Hrun.
  assert (Hcount : count is_chat (trace b1) = count is_chat (trace b)).
  { subst b1. cbn [trace]. rewrite count_app. unfold count at 2. simpl. lia. }
  rewrite Hcount in Hrun. unfold syntax_reply.
  destruct (call_result E _ _ _) as [text|e];
    rewrite (bind_return _ _ _ _ _ Hrun);
    unfold bind at 1; unfold print, emit at 1; cbn [history trace];
    unfold bind at 1; unfold update_history at 1; cbn [history trace];
    rewrite deliver_keeps_history; reflexivity.
Qed.

Lemma append_entry_other key x (d : gmap N (list Syntax.entry)) key' :
  key' <> key -> Syntax.append_entry key x d !! key' = d !! key'.
Proof. intros Hne. unfold Syntax.append_entry. apply lookup_insert_ne. congruence. Qed.

Lemma append_entry_same key x (d : gmap N (list Syntax.entry)) :
  Syntax.append_entry key x d !! key = Some (default [] (d !! key) ++ [x]).
Proof. unfold Syntax.append_entry. apply lookup_insert_eq. Qed.

Lemma grew_at_refl c h : grew_at c h h.
Proof. split; [intros c' _; reflexivity|]. exists []. rewrite app_nil_r. reflexivity. Qed.

Lemma grew_at_trans c h1 h2 h3 : grew_at c h1 h2 -> grew_at c h2 h3 -> grew_at c h1 h3.
Proof.
  intros [H12 [m1 E1]] [H23 [m2 E2]]. split.
  - intros c' Hne. rewrite (H23 c' Hne). apply H12, Hne.
  - exists (m1 ++ m2). rewrite E2, E1, app_assoc. reflexivity.
Qed.

Lemma grew_at_append c x h : grew_at c h (Syntax.append_entry c x h).
Proof.
  split.
  - intros c' Hne. apply append_entry_other, Hne.
  - exists [x]. rewrite append_entry_same. reflexivity.
Qed.

Lemma syntax_chat_frames E ctx prompt :
  frames (grew_at (Discord.channel_id ctx)) (Syntax.chat E ctx prompt).
Proof.
  pose proof (grew_at_refl (Discord.channel_id ctx)) as Hrefl.
  pose proof (grew_at_trans (Discord.channel_id ctx)) as Htrans.
  unfold Syntax.chat. apply frames_with_typing; [assumption..|].
  apply frames_bind; [assumption..| |intros response].
  { unfold Syntax.chat_with_syntax. apply frames_try_except; [assumption..| |].
    - apply frames_bind; [assumption..| |intros r; apply frames_lift; assumption].
      apply frames_ollama_chat; assumption.
    - intros e h [= <-].
      apply frames_bind; [assumption..| |intros _; apply frames_ret; assumption].
      apply frames_print; assumption. }
  apply frames_bind; [assumption..| |intros _].
  { apply frames_print; assumption. }
  apply frames_bind; [assumption..| |intros _].
  { apply frames_update. intros h. apply grew_at_append. }
  apply frames_bind; [assumption..| |intros _].
  { apply frames_update. intros h. apply grew_at_append. }
  apply frames_deliver; assumption.
Qed.

Lemma syntax_turn_frames E message :
  frames (grew_at (Discord.channel_id message)) (Syntax.turn E message).
Proof.
  pose proof (grew_at_refl (Discord.channel_id message)) as Hrefl.
  pose proof (grew_at_trans (Discord.channel_id message)) as Htrans.
  unfold Syntax.turn.
  apply frames_bind; [assumption..| |intros _].
  { apply frames_update. intros h. apply grew_at_append. }
  apply frames_with_typing; [assumption..|].
  apply frames_bind; [assumption..| |intros response].
  { unfold Syntax.chat_with_syntax. apply frames_try_except; [assumption..| |].
    - apply frames_bind; [assumption..| |intros r; apply frames_lift; assumption].
      apply frames_ollama_chat; assumption.
    - intros e h [= <-].
      apply frames_bind; [assumption..| |intros _; apply frames_ret; assumption].
      apply frames_print; assumption. }
  apply frames_bind; [assumption..| |intros _].
  { apply frames_print; assumption. }
  apply frames_bind; [assumption..| |intros _].
  { apply frames_update. intros h. apply grew_at_append. }
  apply frames_deliver; assumption.
Qed.

Lemma syntax_on_message_frames E message :
  frames (grew_at (Discord.channel_id message)) (Syntax.on_message E message).
Proof.
  pose proof (grew_at_refl (Discord.channel_id message)) as Hrefl.
  pose proof (grew_at_trans (Discord.channel_id message)) as Htrans.
  unfold Syntax.on_message.
  destruct (N.eqb _ _); [apply frames_ret; assumption|].
  apply frames_bind; [assumption..| |intros _].
  - destruct (addressed E Syntax.WAKE message);
      [apply syntax_turn_frames|apply frames_ret; assumption].
  - apply frames_process_commands; [assumption..|].
    intros prompt. apply syntax_chat_frames.
Qed.

(** C2, as stated, fails for the per-channel bot: a turn whose model
    call fails still leaves its two entries in the history. *)
Lemma syntax_records_a_failed_turn :
  ~ (forall (E : env) (message : Discord.message)
            (b : bot (gmap N (list Syntax.entry))) (e : exn),
       call_result E (count is_chat (trace b)) Syntax.MODEL
         [Ollama.ChatMessage (lit "system") Syntax.SYNTAX_PROMPT;
          Ollama.ChatMessage (lit "user") (Syntax.prompt_of E message)]
       = Raise e ->
       history (snd (Syntax.on_message E message b)) = history b).
Proof.
  intros Hclaim.
  specialize (Hclaim offline_env hello_syntax (Bot ∅ [])
                (Exn OtherError (lit "Connection refused")) eq_refl).
  assert (Hlook :
    history (snd (Syntax.on_message offline_env hello_syntax (Bot ∅ []))) !! 5%N
    = Some [Syntax.UserPrompt (lit "bob") (lit "Hello");
            Syntax.SyntaxReply Syntax.FALLBACK])
    by (vm_compute; reflexivity).
  rewrite Hclaim in Hlook. cbn [history] in Hlook.
  rewrite lookup_empty in Hlook. discriminate.
Qed.

(** C2, amended. The global bot records an exchange only when the
    model call of the turn has succeeded: a successful call appends
    exactly the pair of its prompt and reply, a failed call appends
    nothing, and after N successful calls the history has grown by the
    N exchanges in call order.  The per-channel bot records in every
    addressed turn, whether the model call succeeds or fails, the
    prompt and then the text it will deliver: the model's reply or,
    when the call failed, the fallback. *)
Theorem exchanges_are_recorded (E : env) :
  (forall prompt (b : bot (list Lain.exchange)) reply,
     call_result E (count is_chat (trace b)) Lain.MODEL
       (context_messages (history b) prompt) = Return reply ->
     history (snd (Lain.chat_with_lain E prompt b))
     = history b ++ [Lain.Exchange prompt reply])
  /\ (forall prompt (b : bot (list Lain.exchange)) e,
        call_result E (count is_chat (trace b)) Lain.MODEL
          (context_messages (history b) prompt) = Raise e ->
        history (snd (Lain.chat_with_lain E prompt b)) = history b)
  /\ (forall prompts replies (b : bot (list Lain.exchange)),
        length replies = length prompts ->
        (forall i model messages reply, replies !! i = Some reply ->
           call_result E (count is_chat (trace b) + i) model messages
           = Return reply) ->
        history (snd (lain_calls E prompts b))
        = history b ++ zip_with Lain.Exchange prompts replies)
  /\ (forall message (b : bot (gmap N (list Syntax.entry))),
        let channel := Discord.channel_id message in
        let prompt := Syntax.prompt_of E message in
        history (snd (Syntax.turn E message b))
        = Syntax.append_entry channel
            (Syntax.SyntaxReply (syntax_reply E b prompt))
            (Syntax.append_entry channel
               (Syntax.UserPrompt (Discord.author_name message) prompt)
               (history b))).
Proof.
  split; [|split; [|split]].
  - intros prompt b reply Hok. pose proof (chat_with_lain_run E prompt b) as Hrun.
    cbv zeta in Hrun. rewrite Hok in Hrun. rewrite Hrun. reflexivity.
  - intros prompt b e Hfail. pose proof (chat_with_lain_run E prompt b) as Hrun.
    cbv zeta in Hrun. rewrite Hfail in Hrun. rewrite Hrun. reflexivity.
  - intros prompts replies b Hlen Hok.
    destruct (calls_all_succeed E prompts replies b Hlen Hok) as (tr & ->).
    reflexivity.
  - intros message b. apply syntax_turn_history.
Qed.

Lemma exchanges_are_recorded_witness :
  length [lit "I am here."; lit "I am here."]
  = length [lit "Who are you?"; lit "Where are you?"]
  /\ (forall i model messages reply,
        [lit "I am here."; lit "I am here."] !! i = Some reply ->
        call_result (quiet_env (lit "I am here.")) (count is_chat [] + i)
          model messages = Return reply)
  /\ history (snd (lain_calls (quiet_env (lit "I am here."))
                     [lit "Who are you?"; lit "Where are you?"] (Bot [] [])))
     = [Lain.Exchange (lit "Who are you?") (lit "I am here.");
        Lain.Exchange (lit "Where are you?") (lit "I am here.")].
Proof.
  set (E := quiet_env (lit "I am here.")).
  set (prompts := [lit "Who are you?"; lit "Where are you?"]).
  set (replies := [lit "I am here."; lit "I am here."]).
  assert (Hok : forall i model messages reply, replies !! i = Some reply ->
            call_result E (count is_chat [] + i) model messages = Return reply).
  { intros [|[|i]] model messages reply Hi; inversion Hi; reflexivity. }
  split; [reflexivity|]. split; [exact Hok|].
  exact (proj1 (proj2 (proj2 (exchanges_are_recorded E)))
           prompts replies (Bot [] []) eq_refl Hok).
Defined.

(** C10. Handling a message in channel c leaves the sequence of every
    other channel as it was, and the entry of c comes into being with
    the first addressed message there: it then holds what was there
    before (nothing, when the key was absent), followed by the prompt
    and the reply of the turn.  A message that neither addresses the
    bot nor invokes its command creates nothing. *)
Theorem turn_touches_only_its_channel (E : env) (message : Discord.message)
    (b : bot (gmap N (list Syntax.entry))) :
  let c := Discord.channel_id message in
  let prompt := Syntax.prompt_of E message in
  let after := history (snd (Syntax.on_message E message b)) in
  (forall c', c' <> c -> after !! c' = history b !! c')
  /\ (Discord.author message <> bot_user E ->
      addressed E Syntax.WAKE message = true ->
      exists more,
        after !! c
        = Some (default [] (history b !! c)
                ++ Syntax.UserPrompt (Discord.author_name message) prompt
                   :: Syntax.SyntaxReply (syntax_reply E b prompt) :: more))
  /\ (addressed E Syntax.WAKE message = false ->
      invoked_command E message = None ->
      after = history b).
Proof.
  intros c prompt after. split; [|split].
  - intros c' Hne. apply (syntax_on_message_frames E message b). exact Hne.
  - intros Hauthor Haddr. subst after. unfold Syntax.on_message.
    apply N.eqb_neq in Hauthor. rewrite Hauthor, Haddr.
    pose proof (syntax_turn_history E message b) as Hturn. cbv zeta in Hturn.
    fold c prompt in Hturn.
    assert (Hat : forall h,
      grew_at c (history (snd (Syntax.turn E message b))) h ->
      exists more,
        h !! c
        = Some (default [] (history b !! c)
                ++ Syntax.UserPrompt (Discord.author_name message) prompt
                   :: Syntax.SyntaxReply (syntax_reply E b prompt) :: more)).
    { intros h [_ [more Hmore]]. exists more.
      rewrite Hturn, append_entry_same, append_entry_same in Hmore.
      cbn [default from_option id] in Hmore.
      rewrite <- !app_assoc in Hmore. cbn [app] in Hmore.
      destruct (h !! c) as [l|]; cbn [default from_option id] in Hmore.
      - rewrite Hmore. reflexivity.
      - symmetry in Hmore. apply app_eq_nil in Hmore as [_ Hnil]. discriminate. }
    unfold bind.
    destruct (Syntax.turn E message b) as [[[]|e] b1] eqn:Hrun; cbn [snd] in *.
    + apply Hat.
      apply (frames_process_commands (grew_at c) (grew_at_refl c) (grew_at_trans c)
               E (Syntax.chat E) message
               (fun p => syntax_chat_frames E message p) b1).
    + apply Hat. apply grew_at_refl.
  - intros Haddr Hcmd. subst after. unfold Syntax.on_message, process_commands.
    rewrite Haddr, Hcmd. destruct (N.eqb _ _); reflexivity.
Qed.

Lemma turn_touches_only_its_channel_witness :
  9%N <> Discord.channel_id hello_syntax
  /\ history (snd (Syntax.on_message (quiet_env (lit "ok")) hello_syntax
                     busy_bot)) !! 9%N
     = Some [Syntax.SyntaxReply (lit "earlier")]
  /\ history (snd (Syntax.on_message (quiet_env (lit "ok")) hello_syntax
                     busy_bot)) !! 5%N
     = Some [Syntax.UserPrompt (lit "bob") (lit "Hello");
             Syntax.SyntaxReply (lit "ok")].
Proof.
  set (b := busy_bot).
  set (after :=
         history (snd (Syntax.on_message (quiet_env (lit "ok")) hello_syntax b))).
  assert (Hne : 9%N <> Discord.channel_id hello_syntax) by discriminate.
  split; [exact Hne|]. split.
  - subst after.
    rewrite (proj1 (turn_touches_only_its_channel (quiet_env (lit "ok"))
                      hello_syntax b) 9%N Hne).
    reflexivity.
  - vm_compute. reflexivity.
Defined.

(** ** Failures of the model clients *)

Lemma ask_about_image_run E image question (b : bot unit) :
  Satoshi.ask_about_image_via_generate E image question b =
  match jpeg_base64 E image with
  | Raise e =>
      (Return Satoshi.FALLBACK, Bot (history b) (trace b ++ [image_error_line e]))
  | Return img_str =>
      let payload := generate_payload img_str question in
      let posted := trace b ++ [HttpPost Satoshi.GENERATE_URL payload] in
      match post_outcome E (count is_post (trace b)) Satoshi.GENERATE_URL payload with
      | Raise e =>
          (Return Satoshi.FALLBACK,
           Bot (history b) (posted ++ [image_error_line e]))
      | Return response =>
          if N.eqb (Requests.status_code response) 200
          then
            match Requests.json response with
            | Raise e =>
                (Return Satoshi.FALLBACK,
                 Bot (history b) (posted ++ [image_error_line e]))
            | Return result =>
                match Satoshi.get_response result Satoshi.NOT_UNDERSTOOD with
                | Return text => (Return text, Bot (history b) posted)
                | Raise e =>
                    (Return Satoshi.FALLBACK,
                     Bot (history b) (posted ++ [image_error_line e]))
                end
            end
          else
            (Return (lit "Error: " ++ str_of_N (Requests.status_code response)
                     ++ lit " - " ++ Requests.text response),
             Bot (history b) posted)
      end
  end.
Proof.
  unfold Satoshi.ask_about_image_via_generate, Satoshi.requests_post, print,
    try_except, get_trace, emit, lift, ret, except_Exception,
    image_error_line, generate_payload, bind.
  cbn [history trace].
  destruct (jpeg_base64 E image) as [img_str|e]; [|destruct b; reflexivity].
  destruct (post_outcome E _ _ _) as [response|e]; [|reflexivity].
  destruct (N.eqb _ _); [|reflexivity].
  destruct (Requests.json response) as [result|e]; [|reflexivity].
  destruct (Satoshi.get_response result Satoshi.NOT_UNDERSTOOD); reflexivity.
Qed.

(** C5, as stated, fails for the image client: on a status that is not
    2xx it returns a text made of the status and the body, not its
    fallback, and prints nothing. *)
Lemma image_client_passes_status_errors_on :
  ~ (forall (E : env) (image : image) (question img_str : str) (b : bot unit)
            (response : Requests.response),
       jpeg_base64 E image = Return img_str ->
       post_outcome E (count is_post (trace b)) Satoshi.GENERATE_URL
         (generate_payload img_str question) = Return response ->
       (Requests.status_code response < 200 \/ 300 <= Requests.status_code response)%N ->
       fst (Satoshi.ask_about_image_via_generate E image question b)
       = Return Satoshi.FALLBACK
       /\ exists line,
            In (Print line)
               (trace (snd (Satoshi.ask_about_image_via_generate E image question b)))).
Proof.
  intros Hclaim.
  destruct (Hclaim server_error_env (lit "pixels") (lit "What is in the image?")
              (lit "/9j/4AAQ") (Bot tt [])
              (Requests.Response 500 (lit "Internal Server Error")
                 (Raise (Exn OtherError (lit "Expecting value"))))
              eq_refl eq_refl) as [Hfallback _].
  - right. vm_compute. discriminate.
  - vm_compute in Hfallback. discriminate.
Qed.

Lemma chat_with_lain_returns E prompt (b : bot (list Lain.exchange)) :
  exists text b', Lain.chat_with_lain E prompt b = (Return text, b').
Proof.
  rewrite chat_with_lain_run. cbv zeta.
  destruct (call_result E _ _ _); eexists _, _; reflexivity.
Qed.

Lemma chat_with_syntax_returns E prompt (b : bot (gmap N (list Syntax.entry))) :
  exists text b', Syntax.chat_with_syntax E prompt b = (Return text, b').
Proof.
  rewrite chat_with_syntax_run. cbv zeta.
  destruct (call_result E _ _ _); eexists _, _; reflexivity.
Qed.

(** C5, amended. A text client whose model call fails (the call
    raises, or the payload lacks ['message'] or ['content']) returns its
    fixed fallback and prints the error.  The image client does the
    same whenever an exception is raised; on a status other than 200 it
    returns "Error: <status> - <body>" and on a 200 answer without a
    ['response'] key "I couldn't understand the image.", printing
    nothing in either case.  No client raises. *)
Theorem model_clients_fall_back (E : env) :
  (forall prompt (b : bot (list Lain.exchange)) e,
     call_result E (count is_chat (trace b)) Lain.MODEL
       (context_messages (history b) prompt) = Raise e ->
     Lain.chat_with_lain E prompt b
     = (Return Lain.FALLBACK,
        Bot (history b)
            (trace b ++ [OllamaChat Lain.MODEL (context_messages (history b) prompt);
                         Print (lit "Error in chat_with_lain: " ++ exn_str e)])))
  /\ (forall prompt (b : bot (gmap N (list Syntax.entry))) e,
        let messages := [Ollama.ChatMessage (lit "system") Syntax.SYNTAX_PROMPT;
                         Ollama.ChatMessage (lit "user") prompt] in
        call_result E (count is_chat (trace b)) Syntax.MODEL messages = Raise e ->
        Syntax.chat_with_syntax E prompt b
        = (Return Syntax.FALLBACK,
           Bot (history b)
               (trace b ++ [OllamaChat Syntax.MODEL messages;
                            Print (lit "Error in chat_with_syntax: " ++ exn_str e)])))
  /\ (forall image question (b : bot unit) e,
        image_call_raises E (count is_post (trace b)) image question e ->
        let r := Satoshi.ask_about_image_via_generate E image question b in
        fst r = Return Satoshi.FALLBACK
        /\ last (trace (snd r)) = Some (image_error_line e))
  /\ (forall image question (b : bot unit) img_str response,
        jpeg_base64 E image = Return img_str ->
        post_outcome E (count is_post (trace b)) Satoshi.GENERATE_URL
          (generate_payload img_str question) = Return response ->
        Requests.status_code response <> 200%N ->
        Satoshi.ask_about_image_via_generate E image question b
        = (Return (lit "Error: " ++ str_of_N (Requests.status_code response)
                   ++ lit " - " ++ Requests.text response),
           Bot (history b)
               (trace b ++ [HttpPost Satoshi.GENERATE_URL
                              (generate_payload img_str question)])))
  /\ (forall image question (b : bot unit) img_str response,
        jpeg_base64 E image = Return img_str ->
        post_outcome E (count is_post (trace b)) Satoshi.GENERATE_URL
          (generate_payload img_str question) = Return response ->
        Requests.status_code response = 200%N ->
        Requests.json response = Return (Requests.JsonDict None) ->
        Satoshi.ask_about_image_via_generate E image question b
        = (Return Satoshi.NOT_UNDERSTOOD,
           Bot (history b)
               (trace b ++ [HttpPost Satoshi.GENERATE_URL
                              (generate_payload img_str question)])))
  /\ (forall prompt (b : bot (list Lain.exchange)),
        exists text b', Lain.chat_with_lain E prompt b = (Return text, b'))
  /\ (forall prompt (b : bot (gmap N (list Syntax.entry))),
        exists text b', Syntax.chat_with_syntax E prompt b = (Return text, b'))
  /\ (forall image question (b : bot unit),
        exists text b',
          Satoshi.ask_about_image_via_generate E image question b
          = (Return text, b')).
Proof.
  repeat apply conj.
  - intros prompt b e Hfail. rewrite chat_with_lain_run. cbv zeta.
    rewrite Hfail, <- app_assoc. reflexivity.
  - intros prompt b e messages Hfail. rewrite chat_with_syntax_run. cbv zeta.
    fold messages. rewrite Hfail, <- app_assoc. reflexivity.
  - intros image question b e Hraises r. subst r.
    rewrite ask_about_image_run.
    destruct Hraises as [e He|img e He Hp|img resp e He Hp Hs Hj|img resp ty He Hp Hs Hj];
      rewrite He; cbv zeta; rewrite ?Hp, ?Hs, ?Hj; cbn [N.eqb Pos.eqb fst snd trace];
      cbn [Satoshi.get_response fst snd trace];
      (split; [reflexivity|apply last_snoc]).
  - intros image question b img_str response He Hp Hs.
    rewrite ask_about_image_run, He. cbv zeta. rewrite Hp.
    apply N.eqb_neq in Hs. rewrite Hs. reflexivity.
  - intros image question b img_str response He Hp Hs Hj.
    rewrite ask_about_image_run, He. cbv zeta. rewrite Hp, Hs, Hj. reflexivity.
  - intros prompt b. apply chat_with_lain_returns.
  - intros prompt b. apply chat_with_syntax_returns.
  - intros image question b. rewrite ask_about_image_run.
    destruct (jpeg_base64 E image); [|eexists _, _; reflexivity].
    cbv zeta. destruct (post_outcome E _ _ _) as [response|];
      [|eexists _, _; reflexivity].
    destruct (N.eqb _ _); [|eexists _, _; reflexivity].
    destruct (Requests.json response) as [result|]; [|eexists _, _; reflexivity].
    destruct (Satoshi.get_response result _); eexists _, _; reflexivity.
Qed.

Lemma model_clients_fall_back_witness :
  call_result offline_env (count is_chat []) Lain.MODEL
    (context_messages [] (lit "Hello"))
  = Raise (Exn OtherError (lit "Connection refused"))
  /\ Lain.chat_with_lain offline_env (lit "Hello") (Bot [] [])
     = (Return Lain.FALLBACK,
        Bot [] ([] ++ [OllamaChat Lain.MODEL (context_messages [] (lit "Hello"));
                       Print (lit "Error in chat_with_lain: "
                              ++ lit "Connection refused")])).
Proof.
  split; [reflexivity|].
  exact (proj1 (model_clients_fall_back offline_env)
           (lit "Hello") (Bot [] []) (Exn OtherError (lit "Connection refused"))
           eq_refl).
Defined.

(** ** The trigger *)

(** C6. The wake phrase is found whatever its casing, but it is cut
    out of the text only where it stands in lower case: "hello lain"
    gives the default prompt, "Hello Lain" addresses the bot and is
    itself sent to the model as the prompt. *)
Theorem wake_phrase_is_cut_only_in_lower_case :
  addressed (quiet_env []) Lain.WAKE hello_lain = true
  /\ Lain.prompt_of (quiet_env []) hello_lain = Lain.DEFAULT_PROMPT
  /\ addressed (quiet_env []) Lain.WAKE hello_Lain = true
  /\ Lain.prompt_of (quiet_env []) hello_Lain = lit "Hello Lain"
  /\ Lain.prompt_of (quiet_env []) hello_Lain <> Lain.DEFAULT_PROMPT
  /\ List.filter is_chat (trace (snd (Lain.on_message (quiet_env []) hello_Lain (Bot [] []))))
     = [OllamaChat Lain.MODEL
          [Ollama.ChatMessage (lit "system") Lain.LAIN_PROMPT;
           Ollama.ChatMessage (lit "user") (lit "Hello Lain")]]
  /\ Syntax.prompt_of (quiet_env []) hello_syntax = Syntax.DEFAULT_PROMPT
  /\ addressed (quiet_env []) Syntax.WAKE hello_Syntax = true
  /\ Syntax.prompt_of (quiet_env []) hello_Syntax = lit "Hello Syntax".
Proof.
  repeat apply conj; try (vm_compute; reflexivity).
  vm_compute. discriminate.
Qed.

(** C7. An addressed message to the image bot never gets as far as the
    attachment test: taking the prompt raises [AttributeError], since
    [str] has no [trim]; nothing is sent, and no request goes to the
    model. *)
Theorem image_turn_raises_before_the_attachment_test :
  (forall E message (b : bot unit),
     Satoshi.turn E message b
     = (Raise (Exn AttributeError (lit "'str' object has no attribute 'trim'")), b))
  /\ addressed (quiet_env []) Satoshi.WAKE hello_satoshi = true
  /\ Discord.attachments hello_satoshi = []
  /\ Satoshi.on_message (quiet_env []) hello_satoshi (Bot tt [])
     = (Raise (Exn AttributeError (lit "'str' object has no attribute 'trim'")),
        Bot tt []).
Proof.
  repeat apply conj; reflexivity.
Qed.

(** ** Blank responses *)

Lemma with_typing_run {H A} channel (body : M H A) (b : bot H) r b1 :
  body (Bot (history b) (trace b ++ [Typing channel true])) = (r, b1) ->
  with_typing channel body b
  = (r, Bot (history b1) (trace b1 ++ [Typing channel false])).
Proof.
  intros Hbody. unfold with_typing, bind, emit. cbn [history trace].
  rewrite Hbody. reflexivity.
Qed.

Lemma deliver_returns {H} E channel response (b : bot H) :
  sends_fail_with_HTTPException E ->
  exists new,
    deliver E channel response b = (Return tt, Bot (history b) (trace b ++ new))
    /\ count is_send new <= length (chunks response).
Proof.
  intros Hhttp. unfold deliver, enumerate.
  apply for_each_returns. exact Hhttp.
Qed.

Lemma lain_respond_returns E tag channel prompt (b : bot (list Lain.exchange)) :
  sends_fail_with_HTTPException E ->
  exists b', Lain.respond E tag channel prompt b = (Return tt, b').
Proof.
  intros Hhttp. unfold Lain.respond.
  set (b0 := Bot (history b) (trace b ++ [Typing channel true])).
  destruct (chat_with_lain_returns E prompt b0) as (text & b1 & Hrun).
  destruct (deliver_returns E channel text
              (Bot (history b1)
                 ((trace b1 ++ [Print (lit "Full response from Lain" ++ tag ++ lit ": " ++ text)])
                  ++ [Print (lit "Response length: "
                             ++ str_of_N (N.of_nat (length text)) ++ lit " characters")]))
              Hhttp) as (new & Hdel & _).
  eexists. apply with_typing_run. fold b0.
  rewrite (bind_return _ _ _ _ _ Hrun).
  unfold bind at 1. unfold print, emit at 1. cbn [history trace].
  unfold bind at 1. unfold emit at 1. cbn [history trace].
  rewrite Hdel. reflexivity.
Qed.

Lemma syntax_turn_returns E message (b : bot (gmap N (list Syntax.entry))) :
  sends_fail_with_HTTPException E ->
  exists b', Syntax.turn E message b = (Return tt, b').
Proof.
  intros Hhttp. unfold Syntax.turn.
  unfold bind at 1. unfold update_history at 1. cbn [history trace].
  set (b0 := Bot _ _).
  set (b0' := Bot (history b0) (trace b0 ++ [Typing (Discord.channel_id message) true])).
  destruct (chat_with_syntax_returns E (Syntax.prompt_of E message) b0')
    as (text & b1 & Hrun).
  destruct (deliver_returns E (Discord.channel_id message) text
              (Bot (Syntax.append_entry (Discord.channel_id message)
                      (Syntax.SyntaxReply text) (history b1))
                   (trace b1 ++ [Print (lit "Full response from Syntax: " ++ text)]))
              Hhttp) as (new & Hdel & _).
  eexists. apply with_typing_run. fold b0'.
  rewrite (bind_return _ _ _ _ _ Hrun).
  unfold bind at 1. unfold print, emit at 1. cbn [history trace].
  unfold bind at 1. unfold update_history at 1. cbn [history trace].
  rewrite Hdel. reflexivity.
Qed.

(** C9, as stated, fails for a response of whitespace only whose send
    fails otherwise than by Discord's [HTTPException]: the delivery,
    and with it the turn, ends with that exception. *)
Lemma blank_response_can_end_in_an_exception :
  ~ (forall (E : env) (message : Discord.message) (response : str)
            (b : bot (list Lain.exchange)),
       Forall (fun c => isspace c = true) response ->
       fst (deliver E (Discord.channel_id message) response b) = Return tt
       /\ (Discord.author message <> bot_user E ->
           chat_outcome E (count is_chat (trace b)) Lain.MODEL
             (context_messages (history b) (Lain.prompt_of E message))
           = Return (Ollama.RespContent response) ->
           fst (Lain.on_message E message b) = Return tt)).
Proof.
  intros Hclaim.
  destruct (Hclaim (breaking_env 0 (lit "   ")) hello_lain (lit "   ") (Bot [] []))
    as [Hdeliver _].
  - repeat constructor.
  - vm_compute in Hdeliver. discriminate.
Qed.

(** C9, amended. The empty response gives no chunk and no send,
    whatever Discord would answer.  A response of whitespace only is
    delivered like any other: provided Discord answers a send with
    success or with its [HTTPException] (as it does to a blank
    message), the delivery returns normally after at most one send per
    2000 characters, and so do the turns of the two text bots. *)
Theorem blank_responses_do_not_crash (E : env) :
  (forall {H} channel (b : bot H),
     chunks [] = [] /\ deliver E channel [] b = (Return tt, b))
  /\ (forall {H} channel (b : bot H) response,
        Forall (fun c => isspace c = true) response ->
        sends_fail_with_HTTPException E ->
        exists new,
          deliver E channel response b
          = (Return tt, Bot (history b) (trace b ++ new))
          /\ count is_send new <= (length response + 1999) / 2000)
  /\ (forall tag channel prompt (b : bot (list Lain.exchange)),
        sends_fail_with_HTTPException E ->
        exists b', Lain.respond E tag channel prompt b = (Return tt, b'))
  /\ (forall message (b : bot (gmap N (list Syntax.entry))),
        sends_fail_with_HTTPException E ->
        exists b', Syntax.turn E message b = (Return tt, b')).
Proof.
  repeat apply conj.
  - intros H channel [h tr]. split; reflexivity.
  - intros H channel b response _ Hhttp.
    destruct (deliver_returns E channel response b Hhttp) as (new & Hrun & Hle).
    exists new. split; [exact Hrun|].
    rewrite <- chunks_length. exact Hle.
  - intros tag channel prompt b. apply lain_respond_returns.
  - intros message b. apply syntax_turn_returns.
Qed.

Lemma blank_responses_do_not_crash_witness :
  Forall (fun c => isspace c = true) (lit "   ")
  /\ sends_fail_with_HTTPException (blank_rejecting_env (lit "   "))
  /\ exists new,
       deliver (blank_rejecting_env (lit "   ")) 5 (lit "   ") (Bot tt [])
       = (Return tt, Bot tt ([] ++ new))
       /\ count is_send new <= (length (lit "   ") + 1999) / 2000.
Proof.
  assert (Hblank : Forall (fun c => isspace c = true) (lit "   ")).
  { repeat constructor. }
  assert (Hhttp : sends_fail_with_HTTPException (blank_rejecting_env (lit "   "))).
  { intros i channel text e. cbn [blank_rejecting_env send_outcome].
    destruct (forallb isspace text); [|discriminate].
    intros [= <-]. reflexivity. }
  split; [exact Hblank|]. split; [exact Hhttp|].
  exact (proj1 (proj2 (blank_responses_do_not_crash (blank_rejecting_env (lit "   "))))
           unit 5%N (Bot tt []) (lit "   ") Hblank Hhttp).
Defined.

(** * Further properties *)

(** ** Python's string operations *)

Lemma startswith_spec (p s : str) :
  startswith p s = true <-> exists rest, s = p ++ rest.
Proof.
  revert s. induction p as [|a p IH]; intros s; cbn [startswith].
  - split; [intros _; exists s; reflexivity|reflexivity].
  - destruct s as [|b s].
    + split; [discriminate|]. intros [rest Hrest]. discriminate.
    + unfold eqb_char. rewrite andb_true_iff, Ascii.eqb_eq, IH. split.
      * intros [-> [rest ->]]. exists rest. reflexivity.
      * intros [rest Hrest]. injection Hrest as -> ->. split; [reflexivity|].
        exists rest. reflexivity.
Qed.

Lemma startswith_app_self (p s : str) : startswith p (p ++ s) = true.
Proof. apply startswith_spec. exists s. reflexivity. Qed.

Lemma contains_spec (needle hay : str) :
  contains needle hay = true <-> exists pre post, hay = pre ++ needle ++ post.
Proof.
  induction hay as [|c hay IH]; cbn [contains].
  - rewrite orb_false_r, startswith_spec. split.
    + intros [rest Hrest]. exists [], rest. exact Hrest.
    + intros (pre & post & Hsplit). destruct pre; [|discriminate].
      exists post. exact Hsplit.
  - rewrite orb_true_iff, startswith_spec, IH. split.
    + intros [[rest Hrest]|(pre & post & Hsplit)].
      * exists [], rest. exact Hrest.
      * exists (c :: pre), post. rewrite Hsplit. reflexivity.
    + intros (pre & post & Hsplit). destruct pre as [|c' pre].
      * left. exists post. exact Hsplit.
      * right. injection Hsplit as -> ->. exists pre, post. reflexivity.
Qed.

Lemma contains_cons (needle : str) c hay :
  contains needle (c :: hay) = startswith needle (c :: hay) || contains needle hay.
Proof. reflexivity. Qed.

Lemma contains_cons_false (needle : str) c hay :
  contains needle (c :: hay) = false ->
  startswith needle (c :: hay) = false /\ contains needle hay = false.
Proof. cbn [contains]. apply orb_false_elim. Qed.

(** A text in which the first character of [needle] does not occur
    does not contain [needle]. *)
Lemma contains_head_absent a (needle hay : str) :
  Forall (fun c => c <> a) hay -> contains (a :: needle) hay = false.
Proof.
  induction 1 as [|c hay Hc _ IH]; [reflexivity|].
  cbn [contains startswith]. rewrite IH, orb_false_r.
  unfold eqb_char. destruct (Ascii.eqb_spec a c); [congruence|reflexivity].
Qed.

Lemma startswith_shorter (p a x : str) :
  length p <= length a -> startswith p (a ++ x) = startswith p a.
Proof.
  revert a. induction p as [|c p IH]; intros a Hlen; [reflexivity|].
  destruct a as [|d a]; cbn [length] in Hlen; [lia|].
  cbn [app startswith]. rewrite IH by lia. reflexivity.
Qed.

Lemma lower_app (s t : str) : lower (s ++ t) = lower s ++ lower t.
Proof. apply map_app. Qed.

Lemma replace_scan_skip old new count : forall (s : str) k,
  replace_scan old new count k s = replace_scan old new count 0 (drop k s).
Proof.
  induction s as [|c s IH]; intros k.
  - rewrite drop_nil. reflexivity.
  - destruct k as [|k]; [reflexivity|].
    cbn [replace_scan drop]. apply IH.
Qed.

(** Nothing to replace: the text comes back as it is. *)
Lemma replace_scan_absent old new count (s : str) :
  contains old s = false -> replace_scan old new count 0 s = s.
Proof.
  induction s as [|c s IH]; intros Habs; [reflexivity|].
  apply contains_cons_false in Habs as [Hhere Hrest].
  cbn [replace_scan]. rewrite Hhere, andb_false_r, IH by exact Hrest.
  reflexivity.
Qed.

Lemma replace_scan_spent old new (s : str) :
  replace_scan old new (Some 0) 0 s = s.
Proof.
  induction s as [|c s IH]; [reflexivity|].
  cbn [replace_scan budget_left andb]. rewrite IH. reflexivity.
Qed.

(** The scan copies a stretch in which [old] cannot start. *)
Lemma replace_scan_copy old new count (pre s : str) :
  (forall p1 p2, pre = p1 ++ p2 -> p2 <> [] -> startswith old (p2 ++ s) = false) ->
  replace_scan old new count 0 (pre ++ s)
  = pre ++ replace_scan old new count 0 s.
Proof.
  induction pre as [|c pre IH]; intros Hfree; [reflexivity|].
  pose proof (Hfree [] (c :: pre) eq_refl ltac:(discriminate)) as Hhere.
  cbn [app] in Hhere. cbn [app replace_scan].
  rewrite Hhere, andb_false_r, IH; [reflexivity|].
  intros p1 p2 -> Hne. apply (Hfree (c :: p1) p2); [reflexivity|exact Hne].
Qed.

(** The scan at an occurrence of a non-empty [old]. *)
Lemma replace_scan_hit old new count (s : str) :
  old <> [] -> budget_left count = true ->
  replace_scan old new count 0 (old ++ s)
  = new ++ replace_scan old new (budget_dec count) 0 s.
Proof.
  intros Hne Hbudget. destruct old as [|c old]; [congruence|].
  change ((c :: old) ++ s) with (c :: (old ++ s)).
  cbn [replace_scan]. rewrite Hbudget.
  change (c :: old ++ s) with ((c :: old) ++ s).
  rewrite startswith_app_self. cbn [andb length pred].
  rewrite replace_scan_skip, drop_app_length. reflexivity.
Qed.

(** [s.replace(old, new, 1)] on a text whose first occurrence of [old]
    comes after [pre]. *)
Lemma replace_first (old new pre post : str) :
  old <> [] ->
  contains old (pre ++ take (length old - 1) old) = false ->
  replace (pre ++ old ++ post) old new (Some 1) = pre ++ new ++ post.
Proof.
  intros Hne Hfirst. unfold replace. destruct old as [|c0 old0] eqn:Hold; [congruence|].
  rewrite <- Hold in *. clear Hold c0 old0.
  rewrite replace_scan_copy.
  - rewrite replace_scan_hit by (exact Hne || reflexivity).
    cbn [budget_dec pred]. rewrite replace_scan_spent. reflexivity.
  - intros p1 p2 -> Hp2.
    rewrite <- (take_drop (length old - 1) old) at 2.
    rewrite <- !app_assoc, (app_assoc p2).
    rewrite startswith_shorter.
    + rewrite <- app_assoc in Hfirst.
      clear -Hfirst. induction p1 as [|c p1 IH].
      * destruct p2 as [|c p2]; [|apply contains_cons_false in Hfirst; tauto].
        cbn [app] in *. destruct (take _ old); cbn [contains] in Hfirst;
          [rewrite orb_false_r in Hfirst; exact Hfirst|].
        apply orb_false_elim in Hfirst. tauto.
      * apply IH. cbn [app] in Hfirst.
        apply contains_cons_false in Hfirst. tauto.
    + rewrite length_app, length_take.
      destruct p2; [congruence|]. cbn [length]. lia.
Qed.

Lemma lstrip_split (s : str) : exists l, s = l ++ lstrip s /\ blank l.
Proof.
  induction s as [|c s (l & Hs & Hl)]; [exists []; split; [reflexivity|constructor]|].
  cbn [lstrip]. destruct (isspace c) eqn:Hc.
  - exists (c :: l). split; [cbn [app]; congruence|constructor; assumption].
  - exists []. split; [reflexivity|constructor].
Qed.

Lemma lstrip_head (s : str) : not_space (head (lstrip s)).
Proof.
  induction s as [|c s IH]; [exact I|].
  cbn [lstrip]. destruct (isspace c) eqn:Hc; [exact IH|exact Hc].
Qed.

Lemma last_rev_head {X} (l : list X) : last (rev l) = head l.
Proof. destruct l as [|a l]; [reflexivity|]. cbn [rev]. apply last_snoc. Qed.

Lemma rstrip_split (s : str) : exists r, s = rstrip s ++ r /\ blank r.
Proof.
  unfold rstrip. destruct (lstrip_split (rev s)) as (l & Hs & Hl).
  exists (rev l). split.
  - rewrite <- rev_app_distr, <- Hs, rev_involutive. reflexivity.
  - apply Forall_rev. exact Hl.
Qed.

Lemma rstrip_last (s : str) : not_space (last (rstrip s)).
Proof. unfold rstrip. rewrite last_rev_head. apply lstrip_head. Qed.

Lemma rstrip_head (s : str) : not_space (head s) -> not_space (head (rstrip s)).
Proof.
  intros Hs. destruct (rstrip_split s) as (r & Hsplit & _).
  destruct (rstrip s) as [|c t]; [exact I|].
  rewrite Hsplit in Hs. exact Hs.
Qed.

(** [strip] takes whitespace, and nothing else, off both ends. *)
Lemma strip_split (s : str) :
  exists l r, s = l ++ strip s ++ r /\ blank l /\ blank r.
Proof.
  destruct (lstrip_split s) as (l & Hs & Hl).
  destruct (rstrip_split (lstrip s)) as (r & Hr & Hb).
  exists l, r. unfold strip. split; [|split; assumption].
  rewrite <- Hr. exact Hs.
Qed.

Lemma strip_ends (s : str) :
  not_space (head (strip s)) /\ not_space (last (strip s)).
Proof.
  unfold strip. split; [apply rstrip_head, lstrip_head|apply rstrip_last].
Qed.

Lemma lstrip_blank (s : str) : blank s -> lstrip s = [].
Proof.
  induction 1 as [|c s Hc _ IH]; [reflexivity|].
  cbn [lstrip]. rewrite Hc. exact IH.
Qed.

Lemma strip_blank (s : str) : strip s = [] <-> blank s.
Proof.
  split.
  - intros Hnil. destruct (strip_split s) as (l & r & Hs & Hl & Hr).
    rewrite Hnil in Hs. rewrite Hs. apply Forall_app. split; assumption.
  - intros Hb. unfold strip. rewrite (lstrip_blank s Hb). reflexivity.
Qed.

Lemma is_empty_nil (s : str) : is_empty s = true <-> s = [].
Proof. destruct s; split; (reflexivity || discriminate). Qed.

(** The decimal text of an id: digits, and at least one. *)
Lemma digits_of_uint d :
  Forall (fun c => isdigit c = true)
         (list_ascii_of_string (NilEmpty.string_of_uint d)).
Proof. induction d; cbn; constructor; (reflexivity || assumption). Qed.

Lemma str_of_N_digits n :
  exists d ds, str_of_N n = d :: ds
               /\ Forall (fun c => isdigit c = true) (d :: ds).
Proof.
  unfold str_of_N, lit, NilZero.string_of_uint.
  pose proof (digits_of_uint (N.to_uint n)) as Hd.
  destruct (N.to_uint n); cbn in *; eexists _, _;
    (split; [reflexivity|]); (exact Hd || (repeat constructor)).
Qed.

Lemma digit_not_lt c : isdigit c = true -> c <> "<"%char.
Proof. intros Hd ->. discriminate. Qed.

Lemma digit_not_bang c : isdigit c = true -> eqb_char "!" c = false.
Proof.
  intros Hd. unfold eqb_char. destruct (Ascii.eqb_spec "!" c) as [<-|]; [discriminate|reflexivity].
Qed.

Lemma replace_nonempty (s old new : str) count :
  old <> [] -> replace s old new count = replace_scan old new count 0 s.
Proof. destruct old; [congruence|reflexivity]. Qed.

Lemma replace_absent (s old new : str) count :
  old <> [] -> contains old s = false -> replace s old new count = s.
Proof.
  intros Hne Habs. rewrite replace_nonempty by exact Hne.
  apply replace_scan_absent, Habs.
Qed.

(** The scan copies a stretch without the first character of [old]. *)
Lemma replace_scan_copy_no_head a (old new pre s : str) count :
  Forall (fun c => c <> a) pre ->
  replace_scan (a :: old) new count 0 (pre ++ s)
  = pre ++ replace_scan (a :: old) new count 0 s.
Proof.
  intros Hpre. apply replace_scan_copy. intros p1 p2 -> Hp2.
  apply Forall_app in Hpre as [_ Hp2'].
  destruct p2 as [|c p2]; [congruence|].
  apply Forall_cons in Hp2' as [Hc _].
  cbn [app startswith]. unfold eqb_char.
  destruct (Ascii.eqb_spec a c); [congruence|reflexivity].
Qed.

Lemma mention_shape E :
  exists d ds,
    str_of_N (bot_user E) = d :: ds
    /\ Forall (fun c => isdigit c = true) (d :: ds)
    /\ mention E = "<"%char :: "@"%char :: d :: ds ++ [">"%char]
    /\ nick_mention E = "<"%char :: "@"%char :: "!"%char :: d :: ds ++ [">"%char].
Proof.
  destruct (str_of_N_digits (bot_user E)) as (d & ds & Hid & Hdig).
  exists d, ds. unfold mention, nick_mention. rewrite Hid.
  repeat split; assumption.
Qed.

Lemma no_lt_absent a (old s : str) :
  a = "<"%char -> no_lt s -> contains (a :: old) s = false.
Proof. intros ->. apply contains_head_absent. Qed.

Lemma without_mentions_eq E content :
  without_mentions E content
  = replace (replace content (nick_mention E) [] None) (mention E) [] None.
Proof. reflexivity. Qed.

(** A text without "<" holds no mention: it is left as it is. *)
Lemma without_mentions_plain E content :
  no_lt content -> without_mentions E content = content.
Proof.
  intros Hplain. rewrite without_mentions_eq.
  destruct (mention_shape E) as (d & ds & _ & _ & -> & ->).
  rewrite (replace_absent content);
    [|discriminate|apply contains_head_absent; exact Hplain].
  apply replace_absent; [discriminate|apply contains_head_absent; exact Hplain].
Qed.

Lemma without_mentions_cut E pre token post :
  token = mention E \/ token = nick_mention E ->
  no_lt pre -> no_lt post ->
  without_mentions E (pre ++ token ++ post) = pre ++ post.
Proof.
  intros Htoken Hpre Hpost. rewrite without_mentions_eq.
  destruct (mention_shape E) as (d & ds & _ & Hdig & Hm & Hn).
  assert (Hplain : no_lt (pre ++ post)) by (apply Forall_app; split; assumption).
  assert (Hm_ne : mention E <> []) by (rewrite Hm; discriminate).
  assert (Hn_ne : nick_mention E <> []) by (rewrite Hn; discriminate).
  assert (Hm_abs : forall s, no_lt s -> contains (mention E) s = false).
  { intros s Hs. rewrite Hm. apply contains_head_absent, Hs. }
  assert (Hn_abs : forall s, no_lt s -> contains (nick_mention E) s = false).
  { intros s Hs. rewrite Hn. apply contains_head_absent, Hs. }
  destruct Htoken as [-> | ->].
  - (* "<@id>": the first pass finds nothing, the second cuts it *)
    assert (Hfirst : replace (pre ++ mention E ++ post) (nick_mention E) [] None
                     = pre ++ mention E ++ post).
    { rewrite replace_nonempty by exact Hn_ne. rewrite Hn at 1.
      rewrite replace_scan_copy_no_head by exact Hpre. rewrite <- Hn.
      f_equal. apply replace_scan_absent.
      apply Forall_cons in Hdig as [Hd Hds].
      assert (Htail : no_lt ("@"%char :: d :: (ds ++ [">"%char]) ++ post)).
      { constructor; [discriminate|]. constructor; [apply digit_not_lt, Hd|].
        apply Forall_app. split; [|exact Hpost].
        apply Forall_app. split; [|constructor; [discriminate|constructor]].
        eapply Forall_impl; [exact Hds|]. intros c Hc. apply digit_not_lt, Hc. }
      rewrite Hm. cbn [app]. rewrite contains_cons, (Hn_abs _ Htail), orb_false_r.
      rewrite Hn. cbn [startswith].
      rewrite (digit_not_bang d Hd), !andb_false_r. reflexivity. }
    rewrite Hfirst, replace_nonempty by exact Hm_ne. rewrite Hm at 1.
    rewrite replace_scan_copy_no_head by exact Hpre. rewrite <- Hm.
    rewrite replace_scan_hit by (exact Hm_ne || reflexivity).
    cbn [budget_dec app]. rewrite replace_scan_absent by (apply Hm_abs, Hpost).
    reflexivity.
  - (* "<@!id>": the first pass cuts it *)
    assert (Hfirst : replace (pre ++ nick_mention E ++ post) (nick_mention E) [] None
                     = pre ++ post).
    { rewrite replace_nonempty by exact Hn_ne. rewrite Hn at 1.
      rewrite replace_scan_copy_no_head by exact Hpre. rewrite <- Hn.
      rewrite replace_scan_hit by (exact Hn_ne || reflexivity).
      cbn [budget_dec app]. rewrite replace_scan_absent by (apply Hn_abs, Hpost).
      reflexivity. }
    rewrite Hfirst. apply replace_absent; [exact Hm_ne|apply Hm_abs, Hplain].
Qed.

(** ** The trigger, further *)

Lemma lain_prompt_of_eq E message :
  Lain.prompt_of E message
  = extracted_prompt E Lain.WAKE Lain.DEFAULT_PROMPT (Discord.content message).
Proof. reflexivity. Qed.

Lemma syntax_prompt_of_eq E message :
  Syntax.prompt_of E message
  = extracted_prompt E Syntax.WAKE Syntax.DEFAULT_PROMPT (Discord.content message).
Proof. reflexivity. Qed.

Lemma extracted_prompt_clean E wake default content :
  default <> [] -> not_space (head default) -> not_space (last default) ->
  let prompt := extracted_prompt E wake default content in
  prompt <> []
  /\ not_space (head prompt) /\ not_space (last prompt)
  /\ ((blank (cut_text E wake content) /\ prompt = default)
      \/ exists l r, cut_text E wake content = l ++ prompt ++ r
                     /\ blank l /\ blank r).
Proof.
  intros Hne Hhead Hlast prompt. subst prompt. unfold extracted_prompt.
  fold (cut_text E wake content).
  destruct (is_empty (strip (cut_text E wake content))) eqn:Hempty.
  - apply is_empty_nil in Hempty.
    repeat split; try assumption. left. split; [|reflexivity].
    apply strip_blank, Hempty.
  - destruct (strip_ends (cut_text E wake content)) as [Hh Hl].
    repeat split; try assumption.
    + intros Hnil. rewrite Hnil in Hempty. discriminate.
    + right. destruct (strip_split (cut_text E wake content)) as (l & r & Hs & Hbl & Hbr).
      exists l, r. repeat split; assumption.
Qed.

Lemma extracted_prompt_after_wake E wake default pre post :
  wake <> [] -> no_lt wake -> no_lt pre -> no_lt post ->
  contains wake (pre ++ take (length wake - 1) wake) = false ->
  extracted_prompt E wake default (pre ++ wake ++ post)
  = if is_empty (strip (pre ++ post)) then default else strip (pre ++ post).
Proof.
  intros Hne Hwake Hpre Hpost Hfirst. unfold extracted_prompt.
  rewrite without_mentions_plain.
  - rewrite replace_first by assumption. reflexivity.
  - apply Forall_app. split; [exact Hpre|].
    apply Forall_app. split; assumption.
Qed.

Lemma extracted_prompt_after_mention E wake default pre token post :
  wake <> [] ->
  token = mention E \/ token = nick_mention E ->
  no_lt pre -> no_lt post ->
  contains wake (pre ++ post) = false ->
  extracted_prompt E wake default (pre ++ token ++ post)
  = if is_empty (strip (pre ++ post)) then default else strip (pre ++ post).
Proof.
  intros Hne Htoken Hpre Hpost Hwake. unfold extracted_prompt.
  rewrite without_mentions_cut by assumption.
  rewrite replace_absent by assumption. reflexivity.
Qed.

Lemma wake_phrases_plain :
  Lain.WAKE <> [] /\ no_lt Lain.WAKE /\ Syntax.WAKE <> [] /\ no_lt Syntax.WAKE.
Proof.
  repeat split; try discriminate; vm_compute; repeat constructor; discriminate.
Qed.

(** X1. A message addresses a bot exactly when the bot is among its
    mentions or the lower-cased text has the wake phrase as a stretch
    of it.  In particular the phrase, written in any casing anywhere in
    the text, addresses the bot. *)
Theorem addressed_iff_mentioned_or_greeted (E : env) (wake : str)
    (message : Discord.message) :
  (addressed E wake message = true
   <-> In (bot_user E) (Discord.mentions message)
       \/ exists pre post,
            lower (Discord.content message) = pre ++ wake ++ post)
  /\ (forall pre w post,
        Discord.content message = pre ++ w ++ post ->
        lower w = wake ->
        addressed E wake message = true).
Proof.
  assert (Hiff : addressed E wake message = true
                 <-> In (bot_user E) (Discord.mentions message)
                     \/ exists pre post,
                          lower (Discord.content message) = pre ++ wake ++ post).
  { unfold addressed. rewrite orb_true_iff, existsb_exists, contains_spec.
    split; intros [Hm|Hw].
    - left. destruct Hm as (u & Hin & Heq). apply N.eqb_eq in Heq. congruence.
    - right. exact Hw.
    - left. exists (bot_user E). split; [exact Hm|apply N.eqb_refl].
    - right. exact Hw. }
  split; [exact Hiff|].
  intros pre w post Hcontent Hw. apply Hiff. right.
  exists (lower pre), (lower post).
  rewrite Hcontent, !lower_app, Hw. reflexivity.
Qed.

Lemma addressed_iff_mentioned_or_greeted_witness :
  Discord.content hello_Lain = [] ++ lit "Hello Lain" ++ []
  /\ lower (lit "Hello Lain") = Lain.WAKE
  /\ addressed (quiet_env []) Lain.WAKE hello_Lain = true.
Proof.
  split; [reflexivity|]. split; [reflexivity|].
  exact (proj2 (addressed_iff_mentioned_or_greeted (quiet_env []) Lain.WAKE
                  hello_Lain)
           [] (lit "Hello Lain") [] eq_refl eq_refl).
Defined.

(** X2. The prompt a text bot takes from an addressed message is never
    empty and neither begins nor ends with whitespace: it is the default
    prompt when nothing but whitespace is left of the text once mentions
    and wake phrase are cut out, and otherwise what is left without the
    whitespace at its two ends. *)
Theorem prompt_is_never_blank (E : env) (message : Discord.message) :
  (let prompt := Lain.prompt_of E message in
   let left_over := cut_text E Lain.WAKE (Discord.content message) in
   prompt <> []
   /\ not_space (head prompt) /\ not_space (last prompt)
   /\ ((blank left_over /\ prompt = Lain.DEFAULT_PROMPT)
       \/ exists l r, left_over = l ++ prompt ++ r /\ blank l /\ blank r))
  /\ (let prompt := Syntax.prompt_of E message in
      let left_over := cut_text E Syntax.WAKE (Discord.content message) in
      prompt <> []
      /\ not_space (head prompt) /\ not_space (last prompt)
      /\ ((blank left_over /\ prompt = Syntax.DEFAULT_PROMPT)
          \/ exists l r, left_over = l ++ prompt ++ r /\ blank l /\ blank r)).
Proof.
  split.
  - rewrite lain_prompt_of_eq.
    apply extracted_prompt_clean; [discriminate|reflexivity|reflexivity].
  - rewrite syntax_prompt_of_eq.
    apply extracted_prompt_clean; [discriminate|reflexivity|reflexivity].
Qed.

(** X3. In a text without mentions the wake phrase is cut out where it
    first stands in lower case, and only there: what comes before and
    after it, stripped, is the prompt (the default prompt when that is
    empty). *)
Theorem wake_phrase_is_cut_once (E : env) (message : Discord.message)
    (pre post : str) :
  no_lt pre -> no_lt post ->
  (Discord.content message = pre ++ Lain.WAKE ++ post ->
   contains Lain.WAKE (pre ++ take (length Lain.WAKE - 1) Lain.WAKE) = false ->
   Lain.prompt_of E message
   = if is_empty (strip (pre ++ post)) then Lain.DEFAULT_PROMPT
     else strip (pre ++ post))
  /\ (Discord.content message = pre ++ Syntax.WAKE ++ post ->
      contains Syntax.WAKE (pre ++ take (length Syntax.WAKE - 1) Syntax.WAKE) = false ->
      Syntax.prompt_of E message
      = if is_empty (strip (pre ++ post)) then Syntax.DEFAULT_PROMPT
        else strip (pre ++ post)).
Proof.
  intros Hpre Hpost.
  destruct wake_phrases_plain as (Hl & Hlp & Hs & Hsp).
  split; intros Hcontent Hfirst.
  - rewrite lain_prompt_of_eq, Hcontent.
    apply extracted_prompt_after_wake; assumption.
  - rewrite syntax_prompt_of_eq, Hcontent.
    apply extracted_prompt_after_wake; assumption.
Qed.

Lemma wake_phrase_is_cut_once_witness :
  no_lt (lit "so, ") /\ no_lt (lit " what now? hello lain")
  /\ Discord.content so_hello_lain_twice
     = lit "so, " ++ Lain.WAKE ++ lit " what now? hello lain"
  /\ contains Lain.WAKE (lit "so, " ++ take (length Lain.WAKE - 1) Lain.WAKE) = false
  /\ Lain.prompt_of (quiet_env []) so_hello_lain_twice
     = lit "so,  what now? hello lain".
Proof.
  assert (H1 : no_lt (lit "so, ")) by (vm_compute; repeat constructor; discriminate).
  assert (H2 : no_lt (lit " what now? hello lain"))
    by (vm_compute; repeat constructor; discriminate).
  split; [exact H1|]. split; [exact H2|]. split; [reflexivity|]. split; [reflexivity|].
  exact (proj1 (wake_phrase_is_cut_once (quiet_env []) so_hello_lain_twice
                  (lit "so, ") (lit " what now? hello lain") H1 H2)
           eq_refl eq_refl).
Defined.

(** X4. A mention of the bot, in either spelling, is cut out of the
    text: with no other "<" and no lower-case wake phrase around it,
    what comes before and after the mention, stripped, is the prompt
    (the default prompt when that is empty). *)
Theorem mention_is_cut_out (E : env) (message : Discord.message)
    (pre token post : str) :
  token = mention E \/ token = nick_mention E ->
  no_lt pre -> no_lt post ->
  Discord.content message = pre ++ token ++ post ->
  (contains Lain.WAKE (pre ++ post) = false ->
   Lain.prompt_of E message
   = if is_empty (strip (pre ++ post)) then Lain.DEFAULT_PROMPT
     else strip (pre ++ post))
  /\ (contains Syntax.WAKE (pre ++ post) = false ->
      Syntax.prompt_of E message
      = if is_empty (strip (pre ++ post)) then Syntax.DEFAULT_PROMPT
        else strip (pre ++ post)).
Proof.
  intros Htoken Hpre Hpost Hcontent.
  destruct wake_phrases_plain as (Hl & _ & Hs & _).
  split; intros Hwake.
  - rewrite lain_prompt_of_eq, Hcontent.
    apply extracted_prompt_after_mention; assumption.
  - rewrite syntax_prompt_of_eq, Hcontent.
    apply extracted_prompt_after_mention; assumption.
Qed.

Lemma mention_is_cut_out_witness :
  (lit "<@!42>" = mention (quiet_env []) \/ lit "<@!42>" = nick_mention (quiet_env []))
  /\ no_lt [] /\ no_lt (lit " what is this? ")
  /\ Discord.content mentioning_lain = [] ++ lit "<@!42>" ++ lit " what is this? "
  /\ contains Lain.WAKE ([] ++ lit " what is this? ") = false
  /\ Lain.prompt_of (quiet_env []) mentioning_lain = lit "what is this?".
Proof.
  assert (H0 : lit "<@!42>" = mention (quiet_env [])
               \/ lit "<@!42>" = nick_mention (quiet_env [])) by (right; reflexivity).
  assert (H1 : no_lt []) by constructor.
  assert (H2 : no_lt (lit " what is this? "))
    by (vm_compute; repeat constructor; discriminate).
  split; [exact H0|]. split; [exact H1|]. split; [exact H2|].
  split; [reflexivity|]. split; [reflexivity|].
  exact (proj1 (mention_is_cut_out (quiet_env []) mentioning_lain
                  [] (lit "<@!42>") (lit " what is this? ") H0 H1 H2 eq_refl)
           eq_refl).
Defined.

(** ** The chunks, further *)

Lemma map_lookup_Some {X Y} (f : X -> Y) (l : list X) i y :
  map f l !! i = Some y -> exists x, l !! i = Some x /\ y = f x.
Proof.
  revert i. induction l as [|a l IH]; intros [|i] Hi; try discriminate.
  - injection Hi as <-. exists a. split; reflexivity.
  - apply IH. exact Hi.
Qed.

Lemma range_loop_lookup n k : forall fuel i0 j x,
  range_loop fuel i0 n k !! j = Some x -> x = i0 + j * k /\ x < n.
Proof.
  induction fuel as [|fuel IH]; intros i0 j x Hx; [discriminate|].
  cbn [range_loop] in Hx. destruct (Nat.ltb_spec i0 n) as [Hlt|]; [|discriminate].
  destruct j as [|j].
  - injection Hx as <-. lia.
  - apply IH in Hx. lia.
Qed.

(** The chunk number [i] starts at character [2000 * i]; it is not
    empty, and it is full unless it is the last. *)
Lemma chunks_lookup (response : str) i chunk :
  chunks response !! i = Some chunk ->
  chunk = slice response (2000 * i) (2000 * i + 2000)
  /\ 1 <= length chunk <= 2000
  /\ (S i < length (chunks response) -> length chunk = 2000).
Proof.
  intros Hi. unfold chunks, chunks_of in *.
  apply map_lookup_Some in Hi as (x & Hx & ->).
  pose proof Hx as Hx'. apply range_loop_lookup in Hx' as [-> Hlt].
  cbn [Nat.add] in *. fold CHUNK. change 2000 with CHUNK.
  replace (CHUNK * i) with (i * CHUNK) by lia.
  split; [reflexivity|].
  assert (Hlen : length (slice response (i * CHUNK) (i * CHUNK + CHUNK))
                 = Nat.min CHUNK (length response - i * CHUNK)).
  { unfold slice. replace (i * CHUNK + CHUNK - i * CHUNK) with CHUNK by lia.
    rewrite length_take, length_drop. reflexivity. }
  rewrite Hlen. assert (0 < CHUNK) by (unfold CHUNK; lia).
  split; [lia|].
  rewrite length_map. intros Hnext.
  apply lookup_lt_is_Some_2 in Hnext as [x' Hx'].
  apply range_loop_lookup in Hx' as [-> Hlt']. lia.
Qed.

Lemma chunks_sizes (response : str) :
  Forall (fun chunk => 1 <= length chunk <= 2000) (chunks response).
Proof.
  apply Forall_lookup_2. intros i chunk Hi.
  apply chunks_lookup in Hi. tauto.
Qed.

(** X5. The chunk number i of a response is the slice
    response[2000*i : 2000*i + 2000]; no chunk is empty, and every
    chunk but the last has exactly 2000 characters. *)
Theorem chunks_are_full_but_the_last (response : str) (i : nat) (chunk : str) :
  chunks response !! i = Some chunk ->
  chunk = slice response (2000 * i) (2000 * i + 2000)
  /\ chunk <> []
  /\ length chunk <= 2000
  /\ (S i < length (chunks response) -> length chunk = 2000).
Proof.
  intros Hi. destruct (chunks_lookup response i chunk Hi) as (Hslice & Hlen & Hfull).
  repeat split; try assumption; try lia.
  intros ->. cbn [length] in Hlen. lia.
Qed.

Lemma chunks_are_full_but_the_last_witness :
  chunks long_response !! 2 = Some ["a"%char]
  /\ ["a"%char] = slice long_response (2000 * 2) (2000 * 2 + 2000)
  /\ ["a"%char] <> []
  /\ length ["a"%char] <= 2000.
Proof.
  assert (Hi : chunks long_response !! 2 = Some ["a"%char]) by (vm_compute; reflexivity).
  split; [exact Hi|].
  destruct (chunks_are_full_but_the_last long_response 2 ["a"%char] Hi)
    as (H1 & H2 & H3 & _).
  repeat split; assumption.
Defined.

(** ** The delivery, whatever Discord answers *)

Lemma sent_texts_app tr1 tr2 : sent_texts (tr1 ++ tr2) = sent_texts tr1 ++ sent_texts tr2.
Proof. unfold sent_texts. apply flat_map_app. Qed.

Lemma sent_texts_paced channel (l : list str) : sent_texts (paced channel l) = l.
Proof.
  induction l as [|c [|c2 rest] IH]; [reflexivity..|].
  change (paced channel (c :: c2 :: rest))
    with (Send channel c (Return tt) :: pause ++ paced channel (c2 :: rest)).
  change (Send channel c (Return tt) :: pause ++ paced channel (c2 :: rest))
    with ([Send channel c (Return tt)] ++ pause ++ paced channel (c2 :: rest)).
  rewrite !sent_texts_app, IH. reflexivity.
Qed.

Lemma paced_delivery_events channel (l : list str) :
  Forall (delivery_event channel) (paced channel l).
Proof.
  induction l as [|c [|c2 rest] IH]; [constructor|repeat constructor|].
  change (paced channel (c :: c2 :: rest))
    with (Send channel c (Return tt) :: pause ++ paced channel (c2 :: rest)).
  constructor; [reflexivity|]. apply Forall_app. split; [|exact IH].
  repeat constructor.
Qed.

(** The loop attempts the items in order and stops for good. *)
Lemma for_each_sends_prefix {H} E channel (l : list str) : forall i0 n (b : bot H),
  exists k new,
    k <= length l
    /\ trace (snd (for_each (combine (seq i0 (length l)) l)
                     (deliver_step E channel n) b)) = trace b ++ new
    /\ sent_texts new = take k l
    /\ Forall (delivery_event channel) new.
Proof.
  induction l as [|chunk rest IH]; intros i0 n b.
  - exists 0, []. cbn. rewrite app_nil_r. repeat split; [lia|constructor].
  - cbn [length seq combine for_each]. unfold bind at 1.
    rewrite deliver_step_run.
    destruct (send_outcome E (count is_send (trace b)) channel chunk) as [[]|e].
    + set (b1 := Bot _ _).
      destruct (IH (S i0) n b1) as (k & new & Hk & Htrace & Htexts & Hevents).
      exists (S k), (Send channel chunk (Return tt)
                     :: (if (Z.of_nat i0 <? Z.of_nat n - 1)%Z then pause else [])
                     ++ new).
      rewrite Htrace. subst b1. cbn [trace].
      split; [lia|]. split; [rewrite <- app_assoc; reflexivity|]. split.
      * change (Send channel chunk (Return tt) :: ?x)
          with ([Send channel chunk (Return tt)] ++ x).
        rewrite !sent_texts_app, Htexts.
        destruct (Z.of_nat i0 <? Z.of_nat n - 1)%Z; reflexivity.
      * constructor; [reflexivity|]. apply Forall_app. split; [|exact Hevents].
        destruct (Z.of_nat i0 <? Z.of_nat n - 1)%Z; repeat constructor.
    + destruct (exn_cls e).
      1: exists 1, [Send channel chunk (Raise e);
                    Print (lit "Failed to send message: " ++ exn_str e)].
      2-4: exists 1, [Send channel chunk (Raise e)].
      all: cbn [snd trace length]; (split; [lia|]); (split; [reflexivity|]);
        (split; [reflexivity|]); repeat constructor.
Qed.

Lemma deliver_trace {H} E channel response (b : bot H) :
  exists k new,
    k <= length (chunks response)
    /\ trace (snd (deliver E channel response b)) = trace b ++ new
    /\ sent_texts new = take k (chunks response)
    /\ Forall (delivery_event channel) new.
Proof. unfold deliver, enumerate. apply for_each_sends_prefix. Qed.

Lemma deliver_all_accepted {H} E channel response (b : bot H) :
  all_sends_accepted E ->
  deliver E channel response b
  = (Return tt, Bot (history b) (trace b ++ paced channel (chunks response))).
Proof.
  intros Hok. unfold deliver, enumerate.
  apply for_each_all_sent; [reflexivity|]. intros j chunk _. apply Hok.
Qed.

(** X6. Whatever Discord answers, a delivery sends to the one channel
    only, and what it sends (or tries to send) is an initial stretch of
    the chunks of the response, in order and each once: never an empty
    text, never more than 2000 characters; it sleeps for 15 seconds and
    nothing else, and leaves the history alone.  When Discord accepts
    every message, the texts sent, put together, are the response. *)
Theorem delivery_sends_a_prefix_of_the_chunks {H} (E : env) (channel : N)
    (response : str) (b : bot H) :
  exists k new,
    k <= length (chunks response)
    /\ trace (snd (deliver E channel response b)) = trace b ++ new
    /\ sent_texts new = take k (chunks response)
    /\ Forall (delivery_event channel) new
    /\ Forall (fun text => 1 <= length text <= 2000) (sent_texts new)
    /\ history (snd (deliver E channel response b)) = history b
    /\ (all_sends_accepted E -> concat (sent_texts new) = response).
Proof.
  destruct (deliver_trace E channel response b) as (k & new & Hk & Htrace & Htexts & Hev).
  exists k, new. repeat split; try assumption.
  - rewrite Htexts. apply Forall_take, chunks_sizes.
  - apply deliver_keeps_history.
  - intros Hok. rewrite (deliver_all_accepted E channel response b Hok) in Htrace.
    cbn [snd trace] in Htrace. apply app_inv_head in Htrace. rewrite <- Htrace.
    rewrite sent_texts_paced. apply chunks_of_concat. unfold CHUNK. lia.
Qed.

(** ** The anatomy of a turn *)

Lemma with_typing_trace {H A} channel (body : M H A) (b : bot H) :
  trace (snd (with_typing channel body b))
  = trace (snd (body (Bot (history b) (trace b ++ [Typing channel true]))))
    ++ [Typing channel false].
Proof.
  unfold with_typing, bind, emit. cbn [history trace].
  destruct (body _) as [r b1]. reflexivity.
Qed.

Lemma count_chat_typing tr channel on :
  count is_chat (tr ++ [Typing channel on]) = count is_chat tr.
Proof. rewrite count_app. unfold count at 2. simpl. lia. Qed.

Lemma lain_respond_anatomy E tag channel prompt (b : bot (list Lain.exchange)) :
  let result := lain_result E b prompt in
  let text := text_of Lain.FALLBACK result in
  exists k new,
    k <= length (chunks text)
    /\ trace (snd (Lain.respond E tag channel prompt b))
       = trace b ++ lain_turn_events tag channel
                      (context_messages (history b) prompt) result new
    /\ sent_texts new = take k (chunks text)
    /\ Forall (delivery_event channel) new
    /\ (all_sends_accepted E -> new = paced channel (chunks text))
    /\ history (snd (Lain.respond E tag channel prompt b))
       = match result with
         | Return reply => history b ++ [Lain.Exchange prompt reply]
         | Raise _ => history b
         end.
Proof.
  intros result text. subst text result. unfold lain_result, Lain.respond.
  rewrite with_typing_trace, with_typing_history.
  pose proof (chat_with_lain_run E prompt
                (Bot (history b) (trace b ++ [Typing channel true]))) as Hrun.
  cbv zeta in Hrun. cbn [history trace] in Hrun. rewrite count_chat_typing in Hrun.
  destruct (call_result E _ _ _) as [reply|e];
    match goal with
    | |- context [trace (snd (?body (Bot (history b) (trace b ++ [Typing channel true]))))] =>
        eassert (Hbody : body (Bot (history b) (trace b ++ [Typing channel true]))
                         = deliver E channel _ _)
          by (rewrite (bind_return _ _ _ _ _ Hrun); reflexivity);
        rewrite !Hbody; clear Hbody
    end;
    match goal with
    | |- context [deliver E channel ?t ?b1] =>
        destruct (deliver_trace E channel t b1) as (k & new & Hk & Htrace & Htexts & Hev);
        pose proof (deliver_keeps_history E channel t b1) as Hhist;
        pose proof (deliver_all_accepted E channel t b1) as Hall
    end;
    exists k, new; cbn [text_of error_lines];
    (split; [exact Hk|]);
    (split; [rewrite Htrace; cbn [trace]; unfold lain_turn_events;
             cbn [text_of error_lines]; rewrite <- !app_assoc; reflexivity|]);
    (split; [exact Htexts|]); (split; [exact Hev|]);
    (split; [|rewrite Hhist; reflexivity]);
    intros Hok; rewrite (Hall Hok) in Htrace; cbn [snd trace] in Htrace;
    apply app_inv_head in Htrace; symmetry; exact Htrace.
Qed.

Lemma syntax_turn_anatomy_body E message (b : bot (gmap N (list Syntax.entry))) :
  let channel := Discord.channel_id message in
  let prompt := Syntax.prompt_of E message in
  let result := syntax_result E b prompt in
  let text := text_of Syntax.FALLBACK result in
  exists k new,
    k <= length (chunks text)
    /\ trace (snd (Syntax.turn E message b))
       = trace b ++ syntax_turn_events (lit "") channel prompt result new
    /\ sent_texts new = take k (chunks text)
    /\ Forall (delivery_event channel) new
    /\ (all_sends_accepted E -> new = paced channel (chunks text)).
Proof.
  intros channel prompt result text. subst text result. unfold syntax_result, Syntax.turn.
  fold channel prompt.
  unfold bind at 1. unfold update_history at 1. cbn [history trace].
  rewrite with_typing_trace. cbn [history trace].
  match goal with
  | |- context [trace (snd (_ (Bot ?h (trace b ++ [Typing channel true]))))] =>
      pose proof (chat_with_syntax_run E prompt
                    (Bot h (trace b ++ [Typing channel true]))) as Hrun
  end.
  cbv zeta in Hrun. cbn [history trace] in Hrun. rewrite count_chat_typing in Hrun.
  fold (syntax_messages prompt) in Hrun |- *.
  destruct (call_result E _ _ _) as [reply|e];
    match goal with
    | |- context [trace (snd (?body (Bot ?h (trace b ++ [Typing channel true]))))] =>
        eassert (Hbody : body (Bot h (trace b ++ [Typing channel true]))
                         = deliver E channel _ _)
          by (rewrite (bind_return _ _ _ _ _ Hrun); reflexivity);
        rewrite !Hbody; clear Hbody
    end;
    match goal with
    | |- context [deliver E channel ?t ?b1] =>
        destruct (deliver_trace E channel t b1) as (k & new & Hk & Htrace & Htexts & Hev);
        pose proof (deliver_all_accepted E channel t b1) as Hall
    end;
    exists k, new; cbn [text_of error_lines];
    (split; [exact Hk|]);
    (split; [rewrite Htrace; cbn [trace]; unfold syntax_turn_events;
             cbn [text_of error_lines]; rewrite <- !app_assoc; reflexivity|]);
    (split; [exact Htexts|]); (split; [exact Hev|]);
    intros Hok; rewrite (Hall Hok) in Htrace; cbn [snd trace] in Htrace;
    apply app_inv_head in Htrace; symmetry; exact Htrace.
Qed.

Lemma process_commands_run {H} E (chat : Discord.message -> str -> M H unit)
    message (b : bot H) :
  process_commands E chat message b
  = match invoked_command E message with
    | Some prompt => (Return tt, snd (chat message prompt b))
    | None => (Return tt, b)
    end.
Proof.
  unfold process_commands. destruct (invoked_command E message) as [prompt|];
    [|reflexivity].
  unfold try_except, except_Exception, ret.
  destruct (chat message prompt b) as [[[]|e] b1]; reflexivity.
Qed.

Lemma syntax_chat_anatomy E ctx prompt (b : bot (gmap N (list Syntax.entry))) :
  let channel := Discord.channel_id ctx in
  let result := syntax_result E b prompt in
  let text := text_of Syntax.FALLBACK result in
  exists k new,
    k <= length (chunks text)
    /\ trace (snd (Syntax.chat E ctx prompt b))
       = trace b ++ syntax_turn_events (lit " (command)") channel prompt result new
    /\ sent_texts new = take k (chunks text)
    /\ Forall (delivery_event channel) new
    /\ (all_sends_accepted E -> new = paced channel (chunks text))
    /\ history (snd (Syntax.chat E ctx prompt b))
       = Syntax.append_entry channel (Syntax.SyntaxReply text)
           (Syntax.append_entry channel
              (Syntax.UserPrompt (Discord.author_name ctx) prompt) (history b)).
Proof.
  intros channel result text. subst text result. unfold syntax_result, Syntax.chat.
  fold channel.
  rewrite with_typing_trace, with_typing_history.
  pose proof (chat_with_syntax_run E prompt
                (Bot (history b) (trace b ++ [Typing channel true]))) as Hrun.
  cbv zeta in Hrun. cbn [history trace] in Hrun. rewrite count_chat_typing in Hrun.
  fold (syntax_messages prompt) in Hrun |- *.
  destruct (call_result E _ _ _) as [reply|e];
    match goal with
    | |- context [trace (snd (?body (Bot (history b) (trace b ++ [Typing channel true]))))] =>
        eassert (Hbody : body (Bot (history b) (trace b ++ [Typing channel true]))
                         = deliver E channel _ _)
          by (rewrite (bind_return _ _ _ _ _ Hrun); reflexivity);
        rewrite !Hbody; clear Hbody
    end;
    match goal with
    | |- context [deliver E channel ?t ?b1] =>
        destruct (deliver_trace E channel t b1) as (k & new & Hk & Htrace & Htexts & Hev);
        pose proof (deliver_keeps_history E channel t b1) as Hhist;
        pose proof (deliver_all_accepted E channel t b1) as Hall
    end;
    exists k, new; cbn [text_of error_lines];
    (split; [exact Hk|]);
    (split; [rewrite Htrace; cbn [trace]; unfold syntax_turn_events;
             cbn [text_of error_lines]; rewrite <- !app_assoc; reflexivity|]);
    (split; [exact Htexts|]); (split; [exact Hev|]);
    (split; [|rewrite Hhist; reflexivity]);
    intros Hok; rewrite (Hall Hok) in Htrace; cbn [snd trace] in Htrace;
    apply app_inv_head in Htrace; symmetry; exact Htrace.
Qed.

Lemma lain_on_message_run E message (b : bot (list Lain.exchange)) :
  Discord.author message <> bot_user E ->
  Lain.on_message E message b
  = let b1 := match invoked_command E message with
              | Some prompt => snd (Lain.chat E message prompt b)
              | None => b
              end in
    if addressed E Lain.WAKE message
    then Lain.respond E (lit "") (Discord.channel_id message)
           (Lain.prompt_of E message) b1
    else (Return tt, b1).
Proof.
  intros Hauthor. apply N.eqb_neq in Hauthor. unfold Lain.on_message.
  rewrite Hauthor. unfold bind. rewrite process_commands_run.
  destruct (invoked_command E message), (addressed E Lain.WAKE message);
    reflexivity.
Qed.

Lemma syntax_on_message_run E message (b : bot (gmap N (list Syntax.entry))) :
  Discord.author message <> bot_user E ->
  Syntax.on_message E message b
  = match (if addressed E Syntax.WAKE message
           then Syntax.turn E message b else (Return tt, b)) with
    | (Return _, b1) =>
        (Return tt,
         match invoked_command E message with
         | Some prompt => snd (Syntax.chat E message prompt b1)
         | None => b1
         end)
    | (Raise e, b1) => (Raise e, b1)
    end.
Proof.
  intros Hauthor. apply N.eqb_neq in Hauthor. unfold Syntax.on_message.
  rewrite Hauthor. unfold bind.
  destruct (addressed E Syntax.WAKE message).
  - destruct (Syntax.turn E message b) as [[[]|e] b1]; [|reflexivity].
    rewrite process_commands_run. destruct (invoked_command E message); reflexivity.
  - unfold ret. rewrite process_commands_run.
    destruct (invoked_command E message); reflexivity.
Qed.

Lemma delivery_events_no_chat channel new :
  Forall (delivery_event channel) new -> count is_chat new = 0.
Proof.
  induction 1 as [|e new He _ IH]; [reflexivity|].
  unfold count in *. cbn [List.filter].
  destruct e; cbn [delivery_event is_chat] in *; try contradiction; exact IH.
Qed.

Lemma error_lines_no_chat prefix result : count is_chat (error_lines prefix result) = 0.
Proof. destruct result; reflexivity. Qed.

Lemma lain_turn_events_chats tag channel messages result new :
  Forall (delivery_event channel) new ->
  count is_chat (lain_turn_events tag channel messages result new) = 1.
Proof.
  intros Hnew. unfold lain_turn_events.
  change (Typing channel true :: OllamaChat Lain.MODEL messages :: ?x)
    with ([Typing channel true; OllamaChat Lain.MODEL messages] ++ x).
  rewrite !count_app, error_lines_no_chat, (delivery_events_no_chat _ _ Hnew).
  reflexivity.
Qed.

Lemma syntax_turn_events_chats tag channel prompt result new :
  Forall (delivery_event channel) new ->
  count is_chat (syntax_turn_events tag channel prompt result new) = 1.
Proof.
  intros Hnew. unfold syntax_turn_events.
  change (Typing channel true :: OllamaChat Syntax.MODEL ?m :: ?x)
    with ([Typing channel true; OllamaChat Syntax.MODEL m] ++ x).
  rewrite !count_app, error_lines_no_chat, (delivery_events_no_chat _ _ Hnew).
  reflexivity.
Qed.

(** X7. An addressed message that is no command makes Lain do this, in
    this order and whatever Discord answers: switch the typing
    indicator on, call the model once with the history and the prompt
    taken from the message, print the error if the call failed, print
    the response and its length, send an initial stretch of the chunks
    of the response (of the fallback text when the call failed), and
    switch the typing indicator off.  When Discord accepts every
    message, all chunks go out, paced.  The history grows by the
    exchange exactly when the call succeeded. *)
Theorem lain_turn_in_order (E : env) (message : Discord.message)
    (b : bot (list Lain.exchange)) :
  Discord.author message <> bot_user E ->
  invoked_command E message = None ->
  addressed E Lain.WAKE message = true ->
  let channel := Discord.channel_id message in
  let prompt := Lain.prompt_of E message in
  let result := lain_result E b prompt in
  let text := text_of Lain.FALLBACK result in
  exists k new,
    k <= length (chunks text)
    /\ trace (snd (Lain.on_message E message b))
       = trace b ++ lain_turn_events (lit "") channel
                      (context_messages (history b) prompt) result new
    /\ sent_texts new = take k (chunks text)
    /\ Forall (delivery_event channel) new
    /\ (all_sends_accepted E -> new = paced channel (chunks text))
    /\ history (snd (Lain.on_message E message b))
       = match result with
         | Return reply => history b ++ [Lain.Exchange prompt reply]
         | Raise _ => history b
         end.
Proof.
  intros Hauthor Hcmd Haddr channel prompt result text.
  rewrite (lain_on_message_run E message b Hauthor), Hcmd, Haddr. cbv zeta.
  apply lain_respond_anatomy.
Qed.

Lemma lain_turn_in_order_witness :
  Discord.author hello_lain <> bot_user offline_env
  /\ invoked_command offline_env hello_lain = None
  /\ addressed offline_env Lain.WAKE hello_lain = true
  /\ exists k new,
       trace (snd (Lain.on_message offline_env hello_lain (Bot [] [])))
       = [] ++ lain_turn_events (lit "") 5
                 (context_messages [] Lain.DEFAULT_PROMPT)
                 (Raise (Exn OtherError (lit "Connection refused"))) new
       /\ sent_texts new = take k (chunks Lain.FALLBACK)
       /\ history (snd (Lain.on_message offline_env hello_lain (Bot [] []))) = [].
Proof.
  assert (H1 : Discord.author hello_lain <> bot_user offline_env) by discriminate.
  split; [exact H1|]. split; [reflexivity|]. split; [reflexivity|].
  destruct (lain_turn_in_order offline_env hello_lain (Bot [] []) H1 eq_refl eq_refl)
    as (k & new & _ & Htrace & Htexts & _ & _ & Hhist).
  exists k, new. repeat split; assumption.
Defined.

(** X8. An addressed message that is no command makes Syntax record
    the prompt under the author's name, then do as Lain does (typing
    on, one model call with the system message and the prompt, the
    error line if the call failed, the response line, an initial
    stretch of the chunks, typing off), having recorded the response,
    or the fallback, before the delivery. *)
Theorem syntax_turn_in_order (E : env) (message : Discord.message)
    (b : bot (gmap N (list Syntax.entry))) :
  Discord.author message <> bot_user E ->
  invoked_command E message = None ->
  addressed E Syntax.WAKE message = true ->
  let channel := Discord.channel_id message in
  let prompt := Syntax.prompt_of E message in
  let result := syntax_result E b prompt in
  let text := text_of Syntax.FALLBACK result in
  exists k new,
    k <= length (chunks text)
    /\ trace (snd (Syntax.on_message E message b))
       = trace b ++ syntax_turn_events (lit "") channel prompt result new
    /\ sent_texts new = take k (chunks text)
    /\ Forall (delivery_event channel) new
    /\ (all_sends_accepted E -> new = paced channel (chunks text))
    /\ history (snd (Syntax.on_message E message b))
       = Syntax.append_entry channel (Syntax.SyntaxReply text)
           (Syntax.append_entry channel
              (Syntax.UserPrompt (Discord.author_name message) prompt)
              (history b)).
Proof.
  intros Hauthor Hcmd Haddr channel prompt result text.
  assert (Hsame : snd (Syntax.on_message E message b) = snd (Syntax.turn E message b)).
  { rewrite (syntax_on_message_run E message b Hauthor), Hcmd, Haddr.
    destruct (Syntax.turn E message b) as [[[]|e] b1]; reflexivity. }
  rewrite Hsame.
  destruct (syntax_turn_anatomy_body E message b)
    as (k & new & Hk & Htrace & Htexts & Hev & Hall).
  exists k, new. repeat split; try assumption.
  rewrite syntax_turn_history. reflexivity.
Qed.

Lemma syntax_turn_in_order_witness :
  Discord.author hello_syntax <> bot_user (quiet_env (lit "ok"))
  /\ invoked_command (quiet_env (lit "ok")) hello_syntax = None
  /\ addressed (quiet_env (lit "ok")) Syntax.WAKE hello_syntax = true
  /\ exists k new,
       trace (snd (Syntax.on_message (quiet_env (lit "ok")) hello_syntax (Bot ∅ [])))
       = [] ++ syntax_turn_events (lit "") 5 Syntax.DEFAULT_PROMPT
                 (Return (lit "ok")) new
       /\ sent_texts new = take k (chunks (lit "ok")).
Proof.
  assert (H1 : Discord.author hello_syntax <> bot_user (quiet_env (lit "ok")))
    by discriminate.
  split; [exact H1|]. split; [reflexivity|]. split; [reflexivity|].
  destruct (syntax_turn_in_order (quiet_env (lit "ok")) hello_syntax (Bot ∅ [])
              H1 eq_refl eq_refl)
    as (k & new & _ & Htrace & Htexts & _).
  exists k, new. split; assumption.
Defined.

(** X9. The commands do as the turns do, with the prompt as it was
    given (no mention or wake phrase is cut, no default replaces an
    empty one): [!lain] like a turn of Lain; [!syntax] like a turn of
    Syntax, except that it records the prompt, and then the response,
    only after the model call. *)
Theorem commands_do_as_turns_do (E : env) (ctx : Discord.message) (prompt : str) :
  (forall b : bot (list Lain.exchange),
     let result := lain_result E b prompt in
     let text := text_of Lain.FALLBACK result in
     exists k new,
       k <= length (chunks text)
       /\ trace (snd (Lain.chat E ctx prompt b))
          = trace b ++ lain_turn_events (lit " (command)") (Discord.channel_id ctx)
                         (context_messages (history b) prompt) result new
       /\ sent_texts new = take k (chunks text)
       /\ Forall (delivery_event (Discord.channel_id ctx)) new
       /\ history (snd (Lain.chat E ctx prompt b))
          = match result with
            | Return reply => history b ++ [Lain.Exchange prompt reply]
            | Raise _ => history b
            end)
  /\ (forall b : bot (gmap N (list Syntax.entry)),
        let channel := Discord.channel_id ctx in
        let result := syntax_result E b prompt in
        let text := text_of Syntax.FALLBACK result in
        exists k new,
          k <= length (chunks text)
          /\ trace (snd (Syntax.chat E ctx prompt b))
             = trace b ++ syntax_turn_events (lit " (command)") channel prompt
                            result new
          /\ sent_texts new = take k (chunks text)
          /\ Forall (delivery_event channel) new
          /\ history (snd (Syntax.chat E ctx prompt b))
             = Syntax.append_entry channel (Syntax.SyntaxReply text)
                 (Syntax.append_entry channel
                    (Syntax.UserPrompt (Discord.author_name ctx) prompt)
                    (history b))).
Proof.
  split; intros b.
  - cbv zeta. unfold Lain.chat.
    destruct (lain_respond_anatomy E (lit " (command)") (Discord.channel_id ctx)
                prompt b) as (k & new & Hk & Htrace & Htexts & Hev & _ & Hhist).
    exists k, new. repeat split; assumption.
  - cbv zeta.
    destruct (syntax_chat_anatomy E ctx prompt b)
      as (k & new & Hk & Htrace & Htexts & Hev & _ & Hhist).
    exists k, new. repeat split; assumption.
Qed.

(** X10. Lain calls the model once for the command and once for being
    addressed, and not otherwise: a message of another author makes it
    call the model as many times as it is a command plus as it
    addresses the bot.  So does Syntax, provided a send fails with
    nothing but Discord's [HTTPException]. *)
Theorem model_calls_per_message (E : env) (message : Discord.message) :
  Discord.author message <> bot_user E ->
  (forall b : bot (list Lain.exchange),
     exists new,
       trace (snd (Lain.on_message E message b)) = trace b ++ new
       /\ count is_chat new
          = as_count (is_command E message)
            + as_count (addressed E Lain.WAKE message))
  /\ (sends_fail_with_HTTPException E ->
      forall b : bot (gmap N (list Syntax.entry)),
        exists new,
          trace (snd (Syntax.on_message E message b)) = trace b ++ new
          /\ count is_chat new
             = as_count (addressed E Syntax.WAKE message)
               + as_count (is_command E message)).
Proof.
  intros Hauthor. split.
  - intros b. rewrite (lain_on_message_run E message b Hauthor). cbv zeta.
    unfold is_command.
    assert (Hcmd : exists new1,
      trace (match invoked_command E message with
             | Some prompt => snd (Lain.chat E message prompt b)
             | None => b
             end) = trace b ++ new1
      /\ count is_chat new1
         = as_count (match invoked_command E message with
                     | Some _ => true | None => false end)).
    { destruct (invoked_command E message) as [prompt|].
      - unfold Lain.chat.
        destruct (lain_respond_anatomy E (lit " (command)")
                    (Discord.channel_id message) prompt b)
          as (k & new & _ & Htrace & _ & Hev & _).
        eexists. split; [exact Htrace|].
        apply lain_turn_events_chats, Hev.
      - exists []. rewrite app_nil_r. split; reflexivity. }
    destruct Hcmd as (new1 & Htrace1 & Hcount1).
    set (b1 := match invoked_command E message with
               | Some prompt => snd (Lain.chat E message prompt b)
               | None => b
               end) in *.
    destruct (addressed E Lain.WAKE message).
    + destruct (lain_respond_anatomy E (lit "") (Discord.channel_id message)
                  (Lain.prompt_of E message) b1)
        as (k & new & _ & Htrace & _ & Hev & _).
      eexists. rewrite Htrace, Htrace1, <- app_assoc. split; [reflexivity|].
      rewrite count_app, Hcount1, (lain_turn_events_chats _ _ _ _ _ Hev).
      reflexivity.
    + exists new1. cbn [snd as_count]. split; [exact Htrace1|]. lia.
  - intros Hhttp b. rewrite (syntax_on_message_run E message b Hauthor).
    unfold is_command.
    assert (Hturn : exists b1 new1,
      (if addressed E Syntax.WAKE message
       then Syntax.turn E message b else (Return tt, b)) = (Return tt, b1)
      /\ trace b1 = trace b ++ new1
      /\ count is_chat new1 = as_count (addressed E Syntax.WAKE message)).
    { destruct (addressed E Syntax.WAKE message).
      - destruct (syntax_turn_returns E message b Hhttp) as (b1 & Hrun).
        destruct (syntax_turn_anatomy_body E message b)
          as (k & new & _ & Htrace & _ & Hev & _).
        rewrite Hrun in Htrace. cbn [snd] in Htrace.
        exists b1. eexists. split; [exact Hrun|]. split; [exact Htrace|].
        apply syntax_turn_events_chats, Hev.
      - exists b, []. rewrite app_nil_r. repeat split. }
    destruct Hturn as (b1 & new1 & -> & Htrace1 & Hcount1).
    cbn [snd]. destruct (invoked_command E message) as [prompt|].
    + destruct (syntax_chat_anatomy E message prompt b1)
        as (k & new & _ & Htrace & _ & Hev & _).
      eexists. rewrite Htrace, Htrace1, <- app_assoc. split; [reflexivity|].
      rewrite count_app, Hcount1, (syntax_turn_events_chats _ _ _ _ _ Hev).
      reflexivity.
    + exists new1. cbn [as_count]. split; [exact Htrace1|]. lia.
Qed.

Lemma model_calls_per_message_witness :
  Discord.author hello_lain <> bot_user (command_env (lit "ok"))
  /\ exists new,
       trace (snd (Lain.on_message (command_env (lit "ok")) hello_lain (Bot [] [])))
       = [] ++ new
       /\ count is_chat new = 2.
Proof.
  assert (H1 : Discord.author hello_lain <> bot_user (command_env (lit "ok")))
    by discriminate.
  split; [exact H1|].
  exact (proj1 (model_calls_per_message (command_env (lit "ok")) hello_lain H1)
           (Bot [] [])).
Defined.

(** X11. A message the bot wrote itself changes nothing, whatever it
    says; nor does a message of another author that neither addresses
    the bot nor invokes its command. *)
Theorem ignored_messages_change_nothing (E : env) (message : Discord.message) :
  (Discord.author message = bot_user E
   \/ (addressed E Lain.WAKE message = false /\ invoked_command E message = None) ->
   forall b, Lain.on_message E message b = (Return tt, b))
  /\ (Discord.author message = bot_user E
      \/ (addressed E Syntax.WAKE message = false /\ invoked_command E message = None) ->
      forall b, Syntax.on_message E message b = (Return tt, b))
  /\ (Discord.author message = bot_user E
      \/ (addressed E Satoshi.WAKE message = false /\ invoked_command E message = None) ->
      forall b, Satoshi.on_message E message b = (Return tt, b)).
Proof.
  repeat split; intros [Hself|[Haddr Hcmd]] b.
  - unfold Lain.on_message. rewrite Hself, N.eqb_refl. reflexivity.
  - unfold Lain.on_message, process_commands, bind. rewrite Haddr, Hcmd.
    destruct (N.eqb _ _); reflexivity.
  - unfold Syntax.on_message. rewrite Hself, N.eqb_refl. reflexivity.
  - unfold Syntax.on_message, process_commands, bind. rewrite Haddr, Hcmd.
    destruct (N.eqb _ _); reflexivity.
  - unfold Satoshi.on_message. rewrite Hself, N.eqb_refl. reflexivity.
  - unfold Satoshi.on_message, process_commands, bind. rewrite Haddr, Hcmd.
    destruct (N.eqb _ _); reflexivity.
Qed.

Lemma ignored_messages_change_nothing_witness :
  (Discord.author small_talk = bot_user (quiet_env [])
   \/ (addressed (quiet_env []) Lain.WAKE small_talk = false
       /\ invoked_command (quiet_env []) small_talk = None))
  /\ Lain.on_message (quiet_env []) small_talk (Bot [] []) = (Return tt, Bot [] []).
Proof.
  assert (H1 : Discord.author small_talk = bot_user (quiet_env [])
               \/ (addressed (quiet_env []) Lain.WAKE small_talk = false
                   /\ invoked_command (quiet_env []) small_talk = None))
    by (right; split; reflexivity).
  split; [exact H1|].
  exact (proj1 (ignored_messages_change_nothing (quiet_env []) small_talk)
           H1 (Bot [] [])).
Defined.

(** ** The stores only grow *)

Lemma lain_respond_grows E tag channel prompt (b : bot (list Lain.exchange)) :
  exists more,
    history (snd (Lain.respond E tag channel prompt b)) = history b ++ more
    /\ length more <= 1.
Proof.
  destruct (lain_respond_anatomy E tag channel prompt b)
    as (k & new & _ & _ & _ & _ & _ & Hhist).
  rewrite Hhist. destruct (lain_result E b prompt) as [reply|e].
  - eexists. split; [reflexivity|]. cbn [length]. lia.
  - exists []. rewrite app_nil_r. split; [reflexivity|]. cbn [length]. lia.
Qed.

(** X12. No message makes a bot drop, reorder or rewrite what its
    store holds: the history of Lain after a message is the history
    before it followed by at most two new exchanges, and under every
    channel key the sequence Syntax holds after a message starts with
    the sequence it held before. *)
Theorem stores_only_grow (E : env) (message : Discord.message) :
  (forall b : bot (list Lain.exchange),
     exists more,
       history (snd (Lain.on_message E message b)) = history b ++ more
       /\ length more <= 2)
  /\ (forall (b : bot (gmap N (list Syntax.entry))) (c : N),
        exists more,
          default [] (history (snd (Syntax.on_message E message b)) !! c)
          = default [] (history b !! c) ++ more).
Proof.
  split.
  - intros b. destruct (N.eq_dec (Discord.author message) (bot_user E)) as [Hself|Hother].
    + unfold Lain.on_message. rewrite Hself, N.eqb_refl.
      exists []. rewrite app_nil_r. split; [reflexivity|]. cbn [length]. lia.
    + rewrite (lain_on_message_run E message b Hother). cbv zeta.
      assert (Hcmd : exists more1,
        history (match invoked_command E message with
                 | Some prompt => snd (Lain.chat E message prompt b)
                 | None => b
                 end) = history b ++ more1 /\ length more1 <= 1).
      { destruct (invoked_command E message) as [prompt|].
        - apply lain_respond_grows.
        - exists []. rewrite app_nil_r. split; [reflexivity|]. cbn [length]. lia. }
      destruct Hcmd as (more1 & Hhist1 & Hlen1).
      set (b1 := match invoked_command E message with
                 | Some prompt => snd (Lain.chat E message prompt b)
                 | None => b
                 end) in *.
      destruct (addressed E Lain.WAKE message).
      * destruct (lain_respond_grows E (lit "") (Discord.channel_id message)
                    (Lain.prompt_of E message) b1) as (more2 & Hhist2 & Hlen2).
        exists (more1 ++ more2). rewrite Hhist2, Hhist1, app_assoc.
        split; [reflexivity|]. rewrite length_app. lia.
      * exists more1. cbn [snd]. split; [exact Hhist1|]. lia.
  - intros b c.
    destruct (syntax_on_message_frames E message b) as [Helse [more Hmore]].
    destruct (N.eq_dec c (Discord.channel_id message)) as [->|Hne].
    + exists more. exact Hmore.
    + exists []. rewrite app_nil_r, (Helse c Hne). reflexivity.
Qed.

(** X13. Two calls of the global-context client in a row: the second
    sends the model the history as the first call found it, then the
    prompt and the reply of the first call if that call succeeded, then
    its own prompt.  A failed call is forgotten: neither its prompt nor
    the fallback text reaches the model later. *)
Theorem lain_replays_the_last_exchange (E : env) (first second : str)
    (b : bot (list Lain.exchange)) :
  let b1 := snd (Lain.chat_with_lain E first b) in
  let remembered :=
    match lain_result E b first with
    | Return reply => [Lain.Exchange first reply]
    | Raise _ => []
    end in
  exists new,
    trace (snd (Lain.chat_with_lain E second b1)) = trace b1 ++ new
    /\ List.filter is_chat new
       = [OllamaChat Lain.MODEL
            (context_messages (history b ++ remembered) second)].
Proof.
  intros b1 remembered. subst b1 remembered. unfold lain_result.
  pose proof (chat_with_lain_run E first b) as Hone. cbv zeta in Hone.
  destruct (call_result E (count is_chat (trace b)) Lain.MODEL
              (context_messages (history b) first)) as [reply|e];
    rewrite Hone; cbn [snd];
    match goal with
    | |- context [Lain.chat_with_lain E second ?b1] =>
        pose proof (chat_with_lain_run E second b1) as Htwo; cbv zeta in Htwo;
        cbn [history trace] in Htwo
    end;
    rewrite ?app_nil_r;
    destruct (call_result E _ _ _) as [reply2|e2]; rewrite Htwo; cbn [snd trace].
  - exists [OllamaChat Lain.MODEL
              (context_messages (history b ++ [Lain.Exchange first reply]) second)].
    split; reflexivity.
  - exists [OllamaChat Lain.MODEL
              (context_messages (history b ++ [Lain.Exchange first reply]) second);
            Print (lit "Error in chat_with_lain: " ++ exn_str e2)].
    rewrite <- app_assoc. split; reflexivity.
  - exists [OllamaChat Lain.MODEL (context_messages (history b) second)].
    split; reflexivity.
  - exists [OllamaChat Lain.MODEL (context_messages (history b) second);
            Print (lit "Error in chat_with_lain: " ++ exn_str e2)].
    rewrite <- (app_assoc _ [OllamaChat _ _] [Print _]). split; reflexivity.
Qed.

(** ** The image bot *)

(** X14. Fetching an image never raises: it asks for the url once and
    returns the image, or, when the download or the decoding raised,
    prints the error and returns None. *)
Theorem fetch_image_never_raises (E : env) (url : str) (b : bot unit) :
  exists result new,
    Satoshi.fetch_image_from_url E url b
    = (Return result, Bot (history b) (trace b ++ HttpGet url :: new))
    /\ match get_image E url with
       | Return img => result = Some img /\ new = []
       | Raise e =>
           result = None
           /\ new = [Print (lit "Error fetching image: " ++ exn_str e)]
       end.
Proof.
  unfold Satoshi.fetch_image_from_url, try_except, except_Exception, print,
    emit, lift, ret, bind. cbn [history trace].
  destruct (get_image E url) as [img|e]; eexists _, _; cbn [history trace];
    rewrite <- ?app_assoc; (split; [reflexivity|split; reflexivity]).
Qed.

(** X15. Whatever the message and whatever the outside world answers,
    [on_message] of the image bot neither fetches an attachment nor
    posts to the model API.  Every addressed message of another author
    ends in the AttributeError of [trim]. *)
Theorem image_bot_never_asks_the_model (E : env) (message : Discord.message)
    (b : bot unit) :
  (exists new,
     trace (snd (Satoshi.on_message E message b)) = trace b ++ new
     /\ count is_get new = 0
     /\ count is_post new = 0)
  /\ (Discord.author message <> bot_user E ->
      addressed E Satoshi.WAKE message = true ->
      fst (Satoshi.on_message E message b)
      = Raise (Exn AttributeError (lit "'str' object has no attribute 'trim'"))).
Proof.
  unfold Satoshi.on_message.
  destruct (N.eqb_spec (Discord.author message) (bot_user E)) as [Hself|Hother].
  - split; [|congruence]. exists []. rewrite app_nil_r. repeat split.
  - unfold bind. rewrite process_commands_run.
    assert (Hturn : forall b1 : bot unit,
      (if addressed E Satoshi.WAKE message then Satoshi.turn E message else ret tt) b1
      = (if addressed E Satoshi.WAKE message
         then Raise (Exn AttributeError (lit "'str' object has no attribute 'trim'"))
         else Return tt, b1)).
    { intros b1. destruct (addressed E Satoshi.WAKE message); reflexivity. }
    destruct (invoked_command E message) as [prompt|].
    + rewrite Hturn. cbn [fst snd]. split.
      * unfold Satoshi.chat. rewrite send_run. cbn [snd trace].
        eexists. split; [reflexivity|]. split; reflexivity.
      * intros _ ->. reflexivity.
    + rewrite Hturn. cbn [fst snd]. split.
      * exists []. rewrite app_nil_r. repeat split.
      * intros _ ->. reflexivity.
Qed.

Lemma image_bot_never_asks_the_model_witness :
  Discord.author hello_satoshi <> bot_user offline_env
  /\ addressed offline_env Satoshi.WAKE hello_satoshi = true
  /\ fst (Satoshi.on_message offline_env hello_satoshi (Bot tt []))
     = Raise (Exn AttributeError (lit "'str' object has no attribute 'trim'")).
Proof.
  assert (H1 : Discord.author hello_satoshi <> bot_user offline_env) by discriminate.
  split; [exact H1|]. split; [reflexivity|].
  exact (proj2 (image_bot_never_asks_the_model offline_env hello_satoshi (Bot tt []))
           H1 eq_refl).
Defined.

Lemma delivery_sends_a_prefix_of_the_chunks_witness :
  all_sends_accepted (quiet_env [])
  /\ exists k new,
       trace (snd (deliver (quiet_env []) 5 long_response (Bot tt []))) = [] ++ new
       /\ sent_texts new = take k (chunks long_response)
       /\ concat (sent_texts new) = long_response.
Proof.
  assert (Hok : all_sends_accepted (quiet_env [])) by (intros i c t; reflexivity).
  split; [exact Hok|].
  destruct (delivery_sends_a_prefix_of_the_chunks (quiet_env []) 5 long_response
              (Bot tt [])) as (k & new & _ & Htrace & Htexts & _ & _ & _ & Hall).
  exists k, new. repeat split; [exact Htrace|exact Htexts|exact (Hall Hok)].
Defined.

(** X16. The image client posts at most once per call, with the model
    name, the question as prompt, the one encoded image and no
    streaming, and not at all when the image cannot be encoded; when
    the API answers 200 with a ['response'] text, that text is what it
    returns. *)
Theorem image_client_posts_once (E : env) (image : image) (question : str)
    (b : bot unit) :
  (exists new,
     trace (snd (Satoshi.ask_about_image_via_generate E image question b))
     = trace b ++ new
     /\ List.filter is_post new
        = match jpeg_base64 E image with
          | Return img_str =>
              [HttpPost Satoshi.GENERATE_URL
                 (Requests.GeneratePayload Satoshi.MODEL question [img_str] false)]
          | Raise _ => []
          end)
  /\ (forall img_str response text,
        jpeg_base64 E image = Return img_str ->
        post_outcome E (count is_post (trace b)) Satoshi.GENERATE_URL
          (generate_payload img_str question) = Return response ->
        Requests.status_code response = 200%N ->
        Requests.json response = Return (Requests.JsonDict (Some text)) ->
        fst (Satoshi.ask_about_image_via_generate E image question b)
        = Return text).
Proof.
  split.
  - rewrite ask_about_image_run.
    destruct (jpeg_base64 E image) as [img_str|e].
    + cbv zeta. fold (generate_payload img_str question).
      destruct (post_outcome E _ _ _) as [response|e]; cbn [snd trace].
      * destruct (N.eqb _ _).
        -- destruct (Requests.json response) as [result|e]; cbn [snd trace].
           ++ destruct (Satoshi.get_response result _); cbn [snd trace];
                eexists; rewrite <- ?app_assoc; split; reflexivity.
           ++ eexists. rewrite <- app_assoc. split; reflexivity.
        -- eexists. split; reflexivity.
      * eexists. rewrite <- app_assoc. split; reflexivity.
    + cbn [snd trace]. eexists. split; reflexivity.
  - intros img_str response text He Hp Hs Hj.
    rewrite ask_about_image_run, He. cbv zeta. rewrite Hp, Hs, Hj. reflexivity.
Qed.

(** X17. A message of another author that both invokes the command and
    addresses the bot is answered twice.  Lain runs the command first
    and the turn after it, so that the turn's model call already finds
    the exchange of the command in the history; Syntax runs the turn
    first and the command after it (provided a send fails with nothing
    but Discord's [HTTPException]). *)
Theorem command_and_turn_both_answer (E : env) (message : Discord.message)
    (argument : str) :
  Discord.author message <> bot_user E ->
  invoked_command E message = Some argument ->
  (addressed E Lain.WAKE message = true ->
   forall b : bot (list Lain.exchange),
     let channel := Discord.channel_id message in
     let prompt := Lain.prompt_of E message in
     let b1 := snd (Lain.chat E message argument b) in
     exists new1 new2,
       trace (snd (Lain.on_message E message b))
       = trace b
         ++ lain_turn_events (lit " (command)") channel
              (context_messages (history b) argument)
              (lain_result E b argument) new1
         ++ lain_turn_events (lit "") channel
              (context_messages (history b1) prompt)
              (lain_result E b1 prompt) new2
       /\ history b1
          = match lain_result E b argument with
            | Return reply => history b ++ [Lain.Exchange argument reply]
            | Raise _ => history b
            end)
  /\ (addressed E Syntax.WAKE message = true ->
      sends_fail_with_HTTPException E ->
      forall b : bot (gmap N (list Syntax.entry)),
        let channel := Discord.channel_id message in
        let prompt := Syntax.prompt_of E message in
        let b1 := snd (Syntax.turn E message b) in
        exists new1 new2,
          trace (snd (Syntax.on_message E message b))
          = trace b
            ++ syntax_turn_events (lit "") channel prompt
                 (syntax_result E b prompt) new1
            ++ syntax_turn_events (lit " (command)") channel argument
                 (syntax_result E b1 argument) new2).
Proof.
  intros Hauthor Hcmd. split.
  - intros Haddr b channel prompt b1.
    rewrite (lain_on_message_run E message b Hauthor), Hcmd, Haddr. cbv zeta.
    fold b1 channel prompt.
    destruct (lain_respond_anatomy E (lit " (command)") channel argument b)
      as (k1 & new1 & _ & Htrace1 & _ & _ & _ & Hhist1).
    destruct (lain_respond_anatomy E (lit "") channel prompt b1)
      as (k2 & new2 & _ & Htrace2 & _).
    exists new1, new2. split; [|exact Hhist1].
    rewrite Htrace2. subst b1. unfold Lain.chat. fold channel.
    rewrite Htrace1, <- app_assoc. reflexivity.
  - intros Haddr Hhttp b channel prompt b1.
    rewrite (syntax_on_message_run E message b Hauthor), Hcmd, Haddr.
    destruct (syntax_turn_returns E message b Hhttp) as (b1' & Hrun).
    subst b1. rewrite Hrun. cbn [snd].
    destruct (syntax_turn_anatomy_body E message b)
      as (k1 & new1 & _ & Htrace1 & _).
    rewrite Hrun in Htrace1. cbn [snd] in Htrace1.
    destruct (syntax_chat_anatomy E message argument b1')
      as (k2 & new2 & _ & Htrace2 & _).
    exists new1, new2. rewrite Htrace2, Htrace1, <- app_assoc. reflexivity.
Qed.

Lemma command_and_turn_both_answer_witness :
  Discord.author bang_hello_lain <> bot_user (command_env (lit "ok"))
  /\ invoked_command (command_env (lit "ok")) bang_hello_lain
     = Some (lit "!lain hello lain")
  /\ addressed (command_env (lit "ok")) Lain.WAKE bang_hello_lain = true
  /\ sent_texts (trace (snd (Lain.on_message (command_env (lit "ok"))
                               bang_hello_lain (Bot [] []))))
     = [lit "ok"; lit "ok"]
  /\ exists new1 new2,
       trace (snd (Lain.on_message (command_env (lit "ok")) bang_hello_lain
                     (Bot [] [])))
       = [] ++ lain_turn_events (lit " (command)") 5
                 (context_messages [] (lit "!lain hello lain"))
                 (Return (lit "ok")) new1
            ++ lain_turn_events (lit "") 5
                 (context_messages
                    [Lain.Exchange (lit "!lain hello lain") (lit "ok")]
                    (lit "!lain"))
                 (Return (lit "ok")) new2.
Proof.
  assert (H1 : Discord.author bang_hello_lain <> bot_user (command_env (lit "ok")))
    by discriminate.
  split; [exact H1|]. split; [reflexivity|]. split; [reflexivity|].
  split; [vm_compute; reflexivity|].
  destruct (proj1 (command_and_turn_both_answer (command_env (lit "ok"))
                     bang_hello_lain (lit "!lain hello lain") H1 eq_refl)
              eq_refl (Bot [] []))
    as (new1 & new2 & Htrace & _).
  exists new1, new2. exact Htrace.
Defined.

Lemma image_client_posts_once_witness :
  jpeg_base64 describing_env (lit "pixels") = Return (lit "/9j/4AAQ")
  /\ Requests.status_code
       (Requests.Response 200 (lit "{}")
          (Return (Requests.JsonDict (Some (lit "A cat."))))) = 200%N
  /\ fst (Satoshi.ask_about_image_via_generate describing_env (lit "pixels")
            Satoshi.DEFAULT_PROMPT (Bot tt []))
     = Return (lit "A cat.").
Proof.
  split; [reflexivity|]. split; [reflexivity|].
  exact (proj2 (image_client_posts_once describing_env (lit "pixels")
                  Satoshi.DEFAULT_PROMPT (Bot tt []))
           (lit "/9j/4AAQ")
           (Requests.Response 200 (lit "{}")
              (Return (Requests.JsonDict (Some (lit "A cat.")))))
           (lit "A cat.") eq_refl eq_refl eq_refl eq_refl).
Defined.
